(** * AI photo organizer: intake, organizer client, state controller, export

    A shallow embedding of the TypeScript sources

    - [types.ts]                          (Photo, OrganizedFolder)
    - [services/geminiService.ts]         (organizePhotos)
    - [App.tsx]                           (the state controller)
    - [components/FileUpload.tsx]         (photo intake)
    - [components/FolderViewModal.tsx]    (folder export)

    Browser and library built-ins the code calls ([FileReader], [JSON.parse],
    [String.prototype.trim], [fetch], the generative-model client, JSZip's
    [generateAsync]) are fields of an explicit platform record; everything
    written in the repository is a definition below. *)

From Stdlib Require Import QArith Ascii String.
From stdpp Require Import base list strings gmap.

Set Warnings "-register-all".

(** ** JavaScript values and control *)

Module JS.

(** What [JSON.parse] can produce. An object lists its own properties, one
    entry per name. *)
Inductive json : Type :=
  | JNull
  | JBool (b : bool)
  | JNum (q : Q)
  | JStr (s : string)
  | JArr (items : list json)
  | JObj (props : list (string * json)).

Inductive JsError : Type :=
  | Error (message : string)
  | TypeError (message : string)
  | SyntaxError (message : string).

Definition message (e : JsError) : string :=
  match e with Error m | TypeError m | SyntaxError m => m end.

(** The state of a promise once the event loop has nothing left to run for it;
    [Pending] is a promise that never settles. Synchronous code inside an
    [async] function uses the same type: a [throw] is a rejection. *)
Inductive Promise (A : Type) : Type :=
  | Resolved (a : A)
  | Rejected (e : JsError)
  | Pending.
Arguments Resolved {A} a.
Arguments Rejected {A} e.
Arguments Pending {A}.

#[export] Instance Promise_ret : MRet Promise := fun _ a => Resolved a.
#[export] Instance Promise_bind : MBind Promise := fun _ _ k m =>
  match m with
  | Resolved a => k a
  | Rejected e => Rejected e
  | Pending => Pending
  end.

(** [try { body } catch (error) { handler(error) }] *)
Definition try_catch {A} (body : Promise A) (handler : JsError -> Promise A)
  : Promise A :=
  match body with
  | Rejected e => handler e
  | other => other
  end.

(** [arr.map(f)] with a callback that may throw: the first throw, in index
    order, leaves the loop. *)
Fixpoint Array_map {A B} (f : A -> Promise B) (l : list A) : Promise (list B) :=
  match l with
  | [] => Resolved []
  | x :: rest =>
      y ← f x;
      ys ← Array_map f rest;
      Resolved (y :: ys)
  end.

(** [arr.some(pred)]: stops at the first element for which [pred] is true. *)
Fixpoint Array_some {A} (pred : A -> Promise bool) (l : list A) : Promise bool :=
  match l with
  | [] => Resolved false
  | x :: rest =>
      b ← pred x;
      if b : bool then Resolved true else Array_some pred rest
  end.

(** [Promise.all]: rejects as soon as one member rejects, otherwise waits for
    every member. *)
Fixpoint first_rejection {A} (l : list (Promise A)) : option JsError :=
  match l with
  | [] => None
  | Rejected e :: _ => Some e
  | _ :: rest => first_rejection rest
  end.

Fixpoint all_resolved {A} (l : list (Promise A)) : option (list A) :=
  match l with
  | [] => Some []
  | Resolved a :: rest => cons a <$> all_resolved rest
  | _ :: _ => None
  end.

Definition Promise_all {A} (l : list (Promise A)) : Promise (list A) :=
  match first_rejection l with
  | Some e => Rejected e
  | None =>
      match all_resolved l with
      | Some values => Resolved values
      | None => Pending
      end
  end.

(** Property read [v.name] on a decoded value. Reading a property of [null]
    throws; primitives and arrays have no property of the names used here, so
    the read gives [undefined] ([None]). *)
Fixpoint own_property (name : string) (props : list (string * json)) : option json :=
  match props with
  | [] => None
  | (k, v) :: rest => if String.eqb k name then Some v else own_property name rest
  end.

Definition get (v : json) (name : string) : Promise (option json) :=
  match v with
  | JNull => Rejected (TypeError "Cannot read properties of null")
  | JObj props => Resolved (own_property name props)
  | _ => Resolved None
  end.

(** [typeof v === 'string'] and [Array.isArray(v)] on a possibly undefined
    value. *)
Definition typeof_is_string (v : option json) : bool :=
  match v with Some (JStr _) => true | _ => false end.

Definition Array_isArray (v : option json) : bool :=
  match v with Some (JArr _) => true | _ => false end.

(** [s.split(sep)] for a one-character separator. *)
Fixpoint split (sep : ascii) (s : string) : list string :=
  match s with
  | EmptyString => [EmptyString]
  | String c rest =>
      if Ascii.eqb c sep then EmptyString :: split sep rest
      else match split sep rest with
           | piece :: pieces => String c piece :: pieces
           | [] => [String c EmptyString]
           end
  end.

End JS.
Import JS.

(** ** types.ts *)

(** A [File] as the code reads it: [file.name], [file.type], and the bytes
    behind it. *)
Record File : Type := {
  name : string;
  type : string;
  content : string;
}.

(** An object URL ([blob:...]) is identified by the number of its entry in the
    browser's blob URL store. *)
Abbreviation ObjectURL := nat.

Record Photo : Type := {
  file : File;
  previewUrl : ObjectURL;
}.

(** [OrganizedFolder] as declared; [number] entries that are integers. *)
Record OrganizedFolder : Type := {
  folderName : string;
  description : string;
  photoIndices : list Z;
}.

(** ** services/geminiService.ts

    The module throws while loading when [API_KEY] is not set; what follows
    is the loaded module. *)

Module GeminiService.

(** The subset of the client library's [Schema] that [responseSchema] uses. *)
Inductive Schema : Type :=
  | STRING
  | INTEGER
  | ARRAY (items : Schema)
  | OBJECT (properties : list (string * Schema)) (required : list string).

Inductive Part : Type :=
  | TextPart (text : string)
  | InlineData (data : option string) (mimeType : string).

Record Request : Type := {
  model : string;
  contents : list Part;
  responseMimeType : string;
  responseSchema : Schema;
}.

(** [response.text] is undefined when the reply carries no text part. *)
Record Response : Type := { text : option string }.

Record Platform : Type := {
  (** [FileReader.readAsDataURL]: the data URL in [reader.result] at
      [loadend], [None] when the read failed ([reader.result] is null). *)
  readAsDataURL : File -> option string;
  (** [ai.models.generateContent] *)
  generateContent : Request -> Promise Response;
  (** [String.prototype.trim] *)
  trim : string -> string;
  (** [JSON.parse]; [None] is a thrown [SyntaxError]. *)
  JSON_parse : string -> option json;
}.

Definition dq : string := String (ascii_of_nat 34) EmptyString.

Definition prompt : string :=
  "
      Analyze the following images. Your task is to act as an expert photo organizer. 
      Group these images into logical folders based on their content, such as events, locations, subjects, or themes.
      For each folder, provide a descriptive name and a brief, one-sentence description.
      Return the result as a JSON array. Each object in the array should represent a folder and contain:
      1. 'folderName': A short, descriptive name for the folder (e.g., " +:+ dq +:+ "Beach Vacation 2024" +:+ dq +:+ ", " +:+ dq +:+ "Family Portraits" +:+ dq +:+ ", " +:+ dq +:+ "City Architecture" +:+ dq +:+ ").
      2. 'description': A single sentence summarizing the content of the folder.
      3. 'photoIndices': An array of numbers, where each number is the zero-based index of the photo belonging to that folder from the input list.

      Ensure every photo is assigned to exactly one folder.
    ".

Definition responseSchema_declared : Schema :=
  ARRAY (OBJECT
    [("folderName", STRING); ("description", STRING); ("photoIndices", ARRAY INTEGER)]
    ["folderName"; "description"; "photoIndices"]).

Definition failure_message : string :=
  "Failed to organize photos. The AI model could not process the request.".

(** The argument of [ai.models.generateContent]. *)
Definition request_for (imageParts : list Part) : Request :=
  {| model := "gemini-2.5-flash";
     contents := TextPart prompt :: imageParts;
     responseMimeType := "application/json";
     responseSchema := responseSchema_declared |}.

Section Client.
Variable P : Platform.

(** The promise resolves from [onloadend]; when the read failed the callback
    throws on [null.split] outside the promise, which then never settles. *)
Definition fileToGenerativePart (f : File) : Promise Part :=
  match readAsDataURL P f with
  | Some dataUrl =>
      Resolved (InlineData (split "," dataUrl !! 1%nat) (type f))
  | None => Pending
  end.

(** The body of the [if] on the decoded [result]: the callback given to
    [some], then the test itself. *)
Definition folder_is_invalid (folder : json) : Promise bool :=
  fName ← get folder "folderName";
  if negb (typeof_is_string fName) then Resolved true
  else
    indices ← get folder "photoIndices";
    Resolved (negb (Array_isArray indices)).

Definition validate (result : json) : Promise (list json) :=
  match result with
  | JArr folders =>
      bad ← Array_some folder_is_invalid folders;
      if bad : bool then Rejected (Error "Invalid JSON structure received from API.")
      else Resolved folders
  | _ => Rejected (Error "Invalid JSON structure received from API.")
  end.

Definition organizePhotos (photos : list Photo) : Promise (list json) :=
  try_catch
    (imageParts ← Promise_all (map (fun photo => fileToGenerativePart (file photo)) photos);
     response ← generateContent P (request_for imageParts);
     jsonText ← match text response with
                | Some t => Resolved (trim P t)
                | None => Rejected (TypeError "Cannot read properties of undefined")
                end;
     result ← match JSON_parse P jsonText with
              | Some v => Resolved v
              | None => Rejected (SyntaxError "Unexpected token")
              end;
     validate result)
    (fun _ => Rejected (Error failure_message)).
End Client.

End GeminiService.
Import GeminiService.

(** ** The browser's blob URL store *)

Module URL.

(** [store] maps every live object URL to the file it was created for;
    [revocations] is the trace of [URL.revokeObjectURL] calls, oldest first. *)
Record Browser : Type := {
  nextUrl : ObjectURL;
  store : gmap nat File;
  revocations : list ObjectURL;
}.

Definition fresh : Browser :=
  {| nextUrl := 0; store := ∅; revocations := [] |}.

Definition createObjectURL (f : File) (b : Browser) : ObjectURL * Browser :=
  (nextUrl b,
   {| nextUrl := S (nextUrl b);
      store := <[nextUrl b := f]> (store b);
      revocations := revocations b |}).

(** Revoking a URL that is not in the store changes nothing but the trace. *)
Definition revokeObjectURL (u : ObjectURL) (b : Browser) : Browser :=
  {| nextUrl := nextUrl b;
     store := delete u (store b);
     revocations := revocations b ++ [u] |}.

Definition live (u : ObjectURL) (b : Browser) : Prop := is_Some (store b !! u).

(** How many times [u] has been revoked so far. *)
Definition times_revoked (u : ObjectURL) (b : Browser) : nat :=
  length (filter (λ v, v = u) (revocations b)).

End URL.
Import URL.

(** ** components/FileUpload.tsx *)

Module FileUpload.

Definition is_image (f : File) : bool := String.prefix "image/" (type f).

(** [.map(file => ({ file, previewUrl: URL.createObjectURL(file) }))] *)
Fixpoint to_photos (files : list File) (b : Browser) : list Photo * Browser :=
  match files with
  | [] => ([], b)
  | f :: rest =>
      let '(u, b1) := createObjectURL f b in
      let '(photos, b2) := to_photos rest b1 in
      ({| file := f; previewUrl := u |} :: photos, b2)
  end.

(** [handleFileChange]: the argument [onFilesSelected] is called with, or
    [None] when it is not called ([files] is null). *)
Definition handleFileChange (files : option (list File)) (b : Browser)
  : option (list Photo) * Browser :=
  match files with
  | Some fl =>
      let '(photoArray, b') := to_photos (List.filter is_image fl) b in
      (Some photoArray, b')
  | None => (None, b)
  end.

(** [onDrop], after the event bookkeeping. *)
Definition onDrop (disabled : bool) (files : option (list File)) (b : Browser)
  : option (list Photo) * Browser :=
  match files with
  | Some fl =>
      if negb disabled && (0 <? length fl)%nat then handleFileChange files b
      else (None, b)
  | None => (None, b)
  end.

End FileUpload.
Import FileUpload.

(** ** App.tsx: the state controller *)

Module App.

(** [organizedFolders] and [selectedFolder] hold decoded values as the client
    returned them: its [as OrganizedFolder[]] is a cast, not a conversion. *)
Record State : Type := {
  photos : list Photo;
  organizedFolders : option (list json);
  isLoading : bool;
  error : option string;
  selectedFolder : option json;
}.

Definition initial : State :=
  {| photos := []; organizedFolders := None; isLoading := false;
     error := None; selectedFolder := None |}.

Definition setPhotos (v : list Photo) (st : State) : State :=
  {| photos := v; organizedFolders := organizedFolders st;
     isLoading := isLoading st; error := error st;
     selectedFolder := selectedFolder st |}.

Definition setOrganizedFolders (v : option (list json)) (st : State) : State :=
  {| photos := photos st; organizedFolders := v;
     isLoading := isLoading st; error := error st;
     selectedFolder := selectedFolder st |}.

Definition setIsLoading (v : bool) (st : State) : State :=
  {| photos := photos st; organizedFolders := organizedFolders st;
     isLoading := v; error := error st;
     selectedFolder := selectedFolder st |}.

Definition setError (v : option string) (st : State) : State :=
  {| photos := photos st; organizedFolders := organizedFolders st;
     isLoading := isLoading st; error := v;
     selectedFolder := selectedFolder st |}.

(** [{error && <div ...>{error}</div>}]: the message on screen, if any. *)
Definition error_banner (st : State) : option string :=
  match error st with
  | Some m => if String.eqb m "" then None else Some m
  | None => None
  end.

(** [photos.forEach(photo => URL.revokeObjectURL(photo.previewUrl))] *)
Definition revoke_each (ps : list Photo) (b : Browser) : Browser :=
  foldl (fun acc photo => revokeObjectURL (previewUrl photo) acc) b ps.

(** The cleanup returned by the [useEffect] on [[photos]], for the render in
    which [photos] was [rendered]. React runs it when a later render has a
    different [photos] array; every [setPhotos] call of this file passes a new
    array. *)
Definition effect_cleanup (rendered : list Photo) (b : Browser) : Browser :=
  revoke_each rendered b.

(** [handleFilesSelected]. [rendered] is the [photos] the closure captured:
    the current one for the file picker, whose [onChange] is rebuilt on every
    render; possibly an older one for a drop, as [onDrop] is memoised on
    [[disabled]] only. *)
Definition handleFilesSelected (rendered selectedPhotos : list Photo)
    (s : State * Browser) : State * Browser :=
  let b := revoke_each rendered s.2 in
  (setError None (setOrganizedFolders None (setPhotos selectedPhotos s.1)), b).

Definition handleReset (s : State * Browser) : State * Browser :=
  let b := revoke_each (photos s.1) s.2 in
  (setIsLoading false (setError None (setOrganizedFolders None (setPhotos [] s.1))), b).

(** [handleOrganizeClick] in two halves: up to the [await], and from the
    settled promise on. *)
Definition organize_begin (st : State) : State :=
  if (length (photos st) =? 0)%nat
  then setError (Some "Please upload some photos first.") st
  else setOrganizedFolders None (setError None (setIsLoading true st)).

Definition or_default (m fallback : string) : string :=
  if String.eqb m "" then fallback else m.

Definition organize_settle (outcome : Promise (list json)) (st : State) : State :=
  match outcome with
  | Resolved folders => setIsLoading false (setOrganizedFolders (Some folders) st)
  | Rejected err =>
      setIsLoading false
        (setError (Some (or_default (message err) "An unknown error occurred.")) st)
  | Pending => st
  end.

(** The whole handler, run to the point where nothing is left to do, with the
    list of arguments [organizePhotos] was called with. *)
Definition handleOrganizeClick (organizePhotos : list Photo -> Promise (list json))
    (st : State) : State * list (list Photo) :=
  if (length (photos st) =? 0)%nat
  then (organize_begin st, [])
  else (organize_settle (organizePhotos (photos st)) (organize_begin st),
        [photos st]).

(** A handler that called [setPhotos] is followed by the re-render, which
    cleans up the effect of the render it replaces. *)
Definition selectPhotos (rendered selectedPhotos : list Photo)
    (s : State * Browser) : State * Browser :=
  let s' := handleFilesSelected rendered selectedPhotos s in
  (s'.1, effect_cleanup (photos s.1) s'.2).

Definition reset (s : State * Browser) : State * Browser :=
  let s' := handleReset s in
  (s'.1, effect_cleanup (photos s.1) s'.2).

(** [<FileUpload onFilesSelected={handleFilesSelected} .../>] *)
Definition intake (rendered : list Photo) (chosen : option (list Photo) * Browser)
    (st : State) : State * Browser :=
  match chosen.1 with
  | Some selectedPhotos => selectPhotos rendered selectedPhotos (st, chosen.2)
  | None => (st, chosen.2)
  end.

Inductive Event : Type :=
  | FilesPicked (files : option (list File))
  | FilesDropped (rendered : list Photo) (files : option (list File))
  | OrganizeClicked
  | OrganizeSettled (P : Platform)
  | ResetClicked.

(** Which events the rendered controls let through. Every control is disabled
    while [isLoading], except Start Over, which is shown only with a result;
    a pending call can settle only while one is in flight.
    [OrganizeSettled P] is the call in flight coming back from a platform
    that behaves as [P]. *)
Definition enabled (ev : Event) (st : State) : bool :=
  match ev with
  | FilesPicked _ | FilesDropped _ _ | OrganizeClicked => negb (isLoading st)
  | OrganizeSettled _ => isLoading st
  | ResetClicked =>
      negb (isLoading st) || bool_decide (is_Some (organizedFolders st))
  end.

Definition step (ev : Event) (s : State * Browser) : State * Browser :=
  match ev with
  | FilesPicked files =>
      intake (photos s.1) (handleFileChange files s.2) s.1
  | FilesDropped rendered files =>
      intake rendered (onDrop (isLoading s.1) files s.2) s.1
  | OrganizeClicked => (organize_begin s.1, s.2)
  | OrganizeSettled P =>
      (organize_settle (organizePhotos P (photos s.1)) s.1, s.2)
  | ResetClicked => reset s
  end.

Inductive reachable : State * Browser -> Prop :=
  | reach_mount : reachable (initial, URL.fresh)
  | reach_step ev s :
      reachable s -> enabled ev s.1 = true -> reachable (step ev s).

(** What is live belongs to the photos on screen. *)
Definition no_leak (s : State * Browser) : Prop :=
  forall u, live u s.2 -> u ∈ map previewUrl (photos s.1).

End App.
Import App.

(** ** components/FolderViewModal.tsx *)

Module FolderViewModal.

Record FetchResponse : Type := { ok : bool; blob : string }.

Record Runtime : Type := {
  (** [fetch(url)], with the body [res.blob()] hands out *)
  fetch : ObjectURL -> Promise FetchResponse;
  (** JSZip's [generateAsync({type: 'blob'})] on the files added so far *)
  generateAsync : gmap string string -> Promise string;
}.

(** [arr[index]]: undefined outside [0 .. length-1]. *)
Definition Array_at {A} (l : list A) (index : Z) : option A :=
  if (0 <=? index)%Z then l !! Z.to_nat index else None.

Definition photosInFolder (folder : OrganizedFolder) (allPhotos : list Photo)
  : list (option Photo) :=
  map (Array_at allPhotos) (photoIndices folder).

Definition is_alnum (c : ascii) : bool :=
  let n := nat_of_ascii c in
  ((48 <=? n) && (n <=? 57) || (65 <=? n) && (n <=? 90)
   || (97 <=? n) && (n <=? 122))%nat.

Definition to_lower (c : ascii) : ascii :=
  let n := nat_of_ascii c in
  if ((65 <=? n) && (n <=? 90))%nat then ascii_of_nat (n + 32) else c.

Fixpoint map_chars (f : ascii -> ascii) (s : string) : string :=
  match s with
  | EmptyString => EmptyString
  | String c rest => String (f c) (map_chars f rest)
  end.

(** [folder.folderName.replace(/[^a-z0-9]/gi, '_').toLowerCase()] *)
Definition safeFolderName (folder : OrganizedFolder) : string :=
  map_chars to_lower
    (map_chars (fun c => if is_alnum c then c else "_"%char) (folderName folder)).

(** What one click on Download comes to. [Failed] is the [catch] branch:
    the error goes to [console.error] and nothing is downloaded. *)
Inductive Outcome : Type :=
  | Ignored
  | Downloaded (filename : string) (content : string)
  | Failed (error : JsError)
  | Stuck.

Section Download.
Variable R : Runtime.

(** The callback of [photosInFolder.map]: reading [photo.previewUrl] throws
    at once on an undefined member; otherwise it returns the promise of the
    member's name and bytes. *)
Definition photoPromise (photo : option Photo) : Promise (Promise (string * string)) :=
  match photo with
  | None => Rejected (TypeError "Cannot read properties of undefined")
  | Some p =>
      Resolved
        (res ← fetch R (previewUrl p);
         if negb (ok res)
         then Rejected (Error ("Failed to fetch " +:+ name (file p)))
         else Resolved (name (file p), blob res))
  end.

(** [zip.file(data.name, data.blob)] for each entry, in order: a later entry
    replaces an earlier one of the same name. *)
Definition zip_files (photoData : list (string * string)) : gmap string string :=
  foldl (fun zip data => <[data.1 := data.2]> zip) ∅ photoData.

(** [handleDownload] from a modal whose [isZipping] is the first argument;
    returns [isZipping] afterwards. The object URL of the archive itself is
    created and revoked inside the handler. *)
Definition handleDownload (isZipping : bool) (folder : OrganizedFolder)
    (allPhotos : list Photo) : bool * Outcome :=
  if isZipping then (isZipping, Ignored)
  else
    let body :=
      photoPromises ← Array_map photoPromise (photosInFolder folder allPhotos);
      photoData ← Promise_all photoPromises;
      content ← generateAsync R (zip_files photoData);
      Resolved (safeFolderName folder +:+ ".zip", content) in
    match body with
    | Resolved (filename, content) => (false, Downloaded filename content)
    | Rejected e => (false, Failed e)
    | Pending => (true, Stuck)
    end.
End Download.

End FolderViewModal.
Import FolderViewModal.

(** ** The declared response schema, read as a predicate *)

Definition is_integer (q : Q) : bool :=
  (Qnum q mod Zpos (Qden q) =? 0)%Z.

(** A decoded value matches a schema: a string, an integer number, an array
    whose items all match, an object that has every required property and
    whose listed properties, where present, match. *)
Fixpoint conforms (s : Schema) (v : json) : bool :=
  match s, v with
  | STRING, JStr _ => true
  | INTEGER, JNum q => is_integer q
  | ARRAY items, JArr vs => forallb (conforms items) vs
  | OBJECT properties required, JObj props =>
      forallb (fun k => bool_decide (is_Some (own_property k props))) required
      && (fix each (ps : list (string * Schema)) : bool :=
            match ps with
            | [] => true
            | (k, sk) :: rest =>
                match own_property k props with
                | Some vk => conforms sk vk
                | None => true
                end && each rest
            end) properties
  | _, _ => false
  end.

(** The check [organizePhotos] makes on one element, as a predicate. *)
Definition well_shaped (folder : json) : bool :=
  match folder with
  | JObj props =>
      typeof_is_string (own_property "folderName" props)
      && Array_isArray (own_property "photoIndices" props)
  | _ => false
  end.

(** ** Sample data *)

Module Sample.

Definition beach : File := {| name := "beach.png"; type := "image/png"; content := "QkVBQ0g=" |}.
Definition notes : File := {| name := "notes.txt"; type := "text/plain"; content := "Tk9URVM=" |}.
Definition city : File := {| name := "city.jpg"; type := "image/jpeg"; content := "Q0lUWQ==" |}.

Definition quoted (s : string) : string := dq +:+ s +:+ dq.

(** A platform whose service answers every request with [reply], which
    [JSON.parse] decodes to [decoded]; any other text is a syntax error. *)
Definition scripted (reply : string) (decoded : option json) : Platform :=
  {| readAsDataURL := fun f => Some ("data:" +:+ type f +:+ ";base64," +:+ content f);
     generateContent := fun _ => Resolved {| text := Some reply |};
     trim := fun s => s;
     JSON_parse := fun s => if String.eqb s reply then decoded else None |}.

(** [[{"folderName":"Trips","photoIndices":["zero"]}]] *)
Definition reply_loose : string :=
  "[{" +:+ quoted "folderName" +:+ ":" +:+ quoted "Trips" +:+ ","
  +:+ quoted "photoIndices" +:+ ":[" +:+ quoted "zero" +:+ "]}]".

Definition decoded_loose : json :=
  JArr [JObj [("folderName", JStr "Trips"); ("photoIndices", JArr [JStr "zero"])]].

(** [[{"folderName":"Trips","description":"Two trips.","photoIndices":[0,1]}]] *)
Definition reply_good : string :=
  "[{" +:+ quoted "folderName" +:+ ":" +:+ quoted "Trips" +:+ ","
  +:+ quoted "description" +:+ ":" +:+ quoted "Two trips." +:+ ","
  +:+ quoted "photoIndices" +:+ ":[0,1]}]".

Definition decoded_good : json :=
  JArr [JObj [("folderName", JStr "Trips"); ("description", JStr "Two trips.");
              ("photoIndices", JArr [JNum 0; JNum 1])]].

Definition two_photos : list Photo :=
  [{| file := beach; previewUrl := 0 |}; {| file := city; previewUrl := 1 |}].

(** A runtime that serves object URLs from the blob URL store [b] and writes
    an archive as the list of its entries. *)
Definition runtime (b : Browser) : Runtime :=
  {| fetch := fun u =>
       match store b !! u with
       | Some f => Resolved {| ok := true; blob := content f |}
       | None => Rejected (TypeError "Failed to fetch")
       end;
     generateAsync := fun zip =>
       Resolved (foldr (fun entry acc => entry.1 +:+ "=" +:+ entry.2 +:+ ";" +:+ acc)
                       "" (map_to_list zip)) |}.

End Sample.

(** ** App.tsx: what the render shows *)

Module AppView.

(** A value put between JSX tags: React refuses a plain object, also inside
    an array; everything else [JSON.parse] gives is text or nothing. *)
Fixpoint valid_child (v : json) : bool :=
  match v with
  | JObj _ => false
  | JArr items => forallb valid_child items
  | _ => true
  end.

(** [v.length]: reading it from undefined or null throws; an array or a
    string has one; other values give undefined. *)
Definition length_of (v : option json) : Promise (option nat) :=
  match v with
  | None | Some JNull => Rejected (TypeError "Cannot read properties of undefined")
  | Some (JArr items) => Resolved (Some (length items))
  | Some (JStr s) => Resolved (Some (String.length s))
  | Some _ => Resolved None
  end.

(** One card of the grid: [{folder.folderName}] in the heading and
    [{folder.photoIndices.length} photos] below it. *)
Definition folder_card (folder : json) : Promise (option json * option nat) :=
  fName ← get folder "folderName";
  if negb (from_option valid_child true fName)
  then Rejected (Error "Objects are not valid as a React child")
  else
    indices ← get folder "photoIndices";
    count ← length_of indices;
    Resolved (fName, count).

(** [organizedFolders.map((folder, index) => <button ...>)] *)
Definition folder_grid (folders : list json)
  : Promise (list (option json * option nat)) :=
  Array_map folder_card folders.

(** The upload panel is under [!organizedFolders]; the Organize and Reset
    buttons are inside it, under [photos.length > 0]. *)
Definition upload_shown (st : State) : bool :=
  negb (bool_decide (is_Some (organizedFolders st))).

Definition actions_shown (st : State) : bool :=
  upload_shown st && (0 <? length (photos st))%nat.

(** Which events the rendered controls can deliver. The file input and the
    two buttons carry [disabled={isLoading}]; the drop target has no such
    attribute ([onDrop] tests [disabled] itself); Start Over, shown with a
    result, is never disabled. *)
Definition ui_enabled (ev : Event) (st : State) : bool :=
  match ev with
  | FilesPicked _ => upload_shown st && negb (isLoading st)
  | FilesDropped _ _ => upload_shown st
  | OrganizeClicked => actions_shown st && negb (isLoading st)
  | OrganizeSettled _ => isLoading st
  | ResetClicked =>
      actions_shown st && negb (isLoading st)
      || bool_decide (is_Some (organizedFolders st))
  end.

Inductive ui_reachable : State * Browser -> Prop :=
  | ui_mount : ui_reachable (initial, URL.fresh)
  | ui_step ev s :
      ui_reachable s -> ui_enabled ev s.1 = true -> ui_reachable (step ev s).

(** Unmounting [App] runs the cleanup of the last effect. *)
Definition unmount (s : State * Browser) : Browser :=
  effect_cleanup (photos s.1) s.2.

End AppView.
Import AppView.

(** ** Characters of a download name *)

Module Chars.

Fixpoint forall_chars (f : ascii -> bool) (s : string) : bool :=
  match s with
  | EmptyString => true
  | String c rest => f c && forall_chars f rest
  end.

(** A lower-case letter, a digit or an underscore. *)
Definition is_safe_char (c : ascii) : bool :=
  let n := nat_of_ascii c in
  ((48 <=? n) && (n <=? 57) || (97 <=? n) && (n <=? 122) || (n =? 95))%nat.

Definition has_comma (s : string) : bool :=
  negb (forall_chars (fun c => negb (Ascii.eqb c ",")) s).

End Chars.
Import Chars.

(** ** components/FolderViewModal.tsx: the render *)

Module ModalRender.

(** What a decoded value comes to when it is used as a property key of an
    array, [allPhotos[index]]: the index of an element, a text that may name
    another property, or a text that names none (the numeral of a number that
    is no index; a text with a comma in it, as every array of two or more
    items gives). An array has fewer than 2^32-1 elements, so a larger integer
    is out of range like any other. *)
Inductive Key : Type :=
  | KIndex (i : N)
  | KName (s : string)
  | KNothing.

(** What [allPhotos[key]] gives: undefined, one of the photos, or a value
    that is neither (the array's [length], a method or object the array
    inherits); reading [previewUrl] from the last gives undefined. *)
Inductive Member : Type :=
  | MUndefined
  | MPhoto (p : Photo)
  | MOther.

Definition digit_of (c : ascii) : option N :=
  let n := N_of_ascii c in
  if ((48 <=? n) && (n <=? 57))%N then Some (n - 48)%N else None.

Fixpoint decimal (acc : N) (s : string) : option N :=
  match s with
  | EmptyString => Some acc
  | String c rest =>
      match digit_of c with
      | Some d => decimal (10 * acc + d)%N rest
      | None => None
      end
  end.

(** The texts that are array indices: decimal digits without a leading
    zero. *)
Definition canonical_index (s : string) : option N :=
  match s with
  | EmptyString => None
  | String c rest =>
      if Ascii.eqb c "0"
      then (if String.eqb rest "" then Some 0%N else None)
      else decimal 0 s
  end.

Definition string_key (s : string) : Key :=
  match canonical_index s with
  | Some i => KIndex i
  | None => KName s
  end.

Definition number_key (q : Q) : Key :=
  if is_integer q && (0 <=? Qnum q)%Z
  then KIndex (Z.to_N (Qnum q / Zpos (Qden q)))
  else KNothing.

(** [ToPropertyKey], also the conversion a template literal makes. An object
    is converted by the [toString] it finds: its own property of that name,
    never callable in a decoded value, makes the conversion throw; otherwise
    the inherited one answers [[object Object]]. An array is converted by
    [join]: nothing for a null item, the conversion of every other item,
    commas between. *)
Fixpoint to_key (v : json) : Promise Key :=
  match v with
  | JNull => Resolved (KName "null")
  | JBool b => Resolved (KName (if b then "true" else "false"))
  | JNum q => Resolved (number_key q)
  | JStr s => Resolved (string_key s)
  | JObj props =>
      match own_property "toString" props with
      | Some _ => Rejected (TypeError "Cannot convert object to primitive value")
      | None => Resolved (KName "[object Object]")
      end
  | JArr items =>
      keys ← (fix each (l : list json) : Promise (list Key) :=
                match l with
                | [] => Resolved []
                | x :: rest =>
                    k ← match x with
                        | JNull => Resolved (KName "")
                        | _ => to_key x
                        end;
                    ks ← each rest;
                    Resolved (k :: ks)
                end) items;
      Resolved match keys with
               | [] => KName ""
               | [k] => k
               | _ => KNothing
               end
  end.

Definition at_index {A} (l : list A) (i : N) : option A :=
  if (i <? N.of_nat (length l))%N then l !! N.to_nat i else None.

Record View : Type := {
  heading : option json;
  paragraph : option json;
  download_disabled : bool;
  download_label : string;
  images : list (option ObjectURL);
}.

Section Render.
Variable on_prototype : string -> bool.

(** [allPhotos[key]]. [on_prototype] tells the names of the properties an
    array inherits in the running engine ([map], [constructor], ...). *)
Definition element (allPhotos : list Photo) (k : Key) : Member :=
  match k with
  | KIndex i =>
      match at_index allPhotos i with
      | Some p => MPhoto p
      | None => MUndefined
      end
  | KName s =>
      if String.eqb s "length" || on_prototype s then MOther else MUndefined
  | KNothing => MUndefined
  end.

(** [`... ${v}`] *)
Definition template_text (v : option json) : Promise unit :=
  match v with
  | None => Resolved ()
  | Some x => _ ← to_key x; Resolved ()
  end.

(** The component function, called with what [App] passes: the stored value
    of the selected folder and the photos. It throws where line 13 or an
    [<img>] reads from undefined, and where React is given an object as the
    child of the heading or of the paragraph. *)
Definition render (isZipping : bool) (folder : json) (allPhotos : list Photo)
  : Promise View :=
  indices ← get folder "photoIndices";
  items ← match indices with
          | Some (JArr items) => Resolved items
          | _ => Rejected (TypeError "folder.photoIndices.map is not a function")
          end;
  photosInFolder ← Array_map (fun index =>
                                k ← to_key index;
                                Resolved (element allPhotos k)) items;
  fName ← get folder "folderName";
  desc ← get folder "description";
  srcs ← Array_map (fun photo =>
                      src ← match photo with
                            | MUndefined =>
                                Rejected (TypeError "Cannot read properties of undefined")
                            | MPhoto p => Resolved (Some (previewUrl p))
                            | MOther => Resolved None
                            end;
                      _ ← template_text fName;
                      Resolved src) photosInFolder;
  if from_option valid_child true fName && from_option valid_child true desc
  then Resolved {| heading := fName;
                   paragraph := desc;
                   download_disabled := isZipping;
                   download_label := if isZipping then "Zipping..." else "Download Folder";
                   images := srcs |}
  else Rejected (Error "Objects are not valid as a React child").
End Render.

(** The member an element read of the typed model stands for. *)
Definition as_member (photo : option Photo) : Member :=
  match photo with
  | Some p => MPhoto p
  | None => MUndefined
  end.

(** The value a folder of the declared type is at run time. *)
Definition folder_value (f : OrganizedFolder) : json :=
  JObj [("folderName", JStr (folderName f));
        ("description", JStr (description f));
        ("photoIndices", JArr (map (fun index => JNum (inject_Z index)) (photoIndices f)))].

End ModalRender.
Import ModalRender.

(** ** More sample data *)

Module Fixtures.

(** A platform on which reading the file named [bad] fails. *)
Definition unreadable (bad : string) (reply : string) (decoded : option json)
  : Platform :=
  {| readAsDataURL := fun f =>
       if String.eqb (name f) bad then None
       else Some ("data:" +:+ type f +:+ ";base64," +:+ content f);
     generateContent := fun _ => Resolved {| text := Some reply |};
     trim := fun s => s;
     JSON_parse := fun s => if String.eqb s reply then decoded else None |}.

(** A platform whose service answers requests about two images only. *)
Definition two_only (reply : string) (decoded : option json) : Platform :=
  {| readAsDataURL := fun f => Some ("data:" +:+ type f +:+ ";base64," +:+ content f);
     generateContent := fun r =>
       if (length (contents r) =? 3)%nat then Resolved {| text := Some reply |}
       else Rejected (Error "unsupported");
     trim := fun s => s;
     JSON_parse := fun s => if String.eqb s reply then decoded else None |}.

(** A platform whose service call fails. *)
Definition offline : Platform :=
  {| readAsDataURL := fun f => Some ("data:" +:+ type f +:+ ";base64," +:+ content f);
     generateContent := fun _ => Rejected (Error "fetch failed");
     trim := fun s => s;
     JSON_parse := fun _ => None |}.

(** A runtime on which every fetch is answered, with the status [ok_for]
    gives the URL. *)
Definition serving (ok_for : ObjectURL -> bool) : Runtime :=
  {| fetch := fun u => Resolved {| ok := ok_for u; blob := "bytes" |};
     generateAsync := fun zip => Resolved "archive" |}.

(** A few of the names an array inherits. *)
Definition some_inherited (s : string) : bool :=
  bool_decide (s ∈ ["constructor"; "map"; "toString"; "hasOwnProperty"]).

Definition trips : OrganizedFolder :=
  {| folderName := "Trips"; description := "Two trips."; photoIndices := [1; 0]%Z |}.

End Fixtures.

(** * Properties *)

(** ** Organizer client *)

Section ClientFacts.
Variable P : Platform.

Lemma folder_is_invalid_cases (folder : json) :
  if well_shaped folder
  then folder_is_invalid folder = Resolved false
  else folder_is_invalid folder = Resolved true
       \/ exists e, folder_is_invalid folder = Rejected e.
Proof.
  destruct folder as [| b | q | s | items | props]; cbn;
    try (left; reflexivity); try (right; eexists; reflexivity).
  unfold folder_is_invalid; cbn.
  destruct (own_property "folderName" props) as [[| | | s | |]|]; cbn;
    try (left; reflexivity).
  destruct (own_property "photoIndices" props) as [[| | | | |]|]; cbn;
    try (left; reflexivity); reflexivity.
Qed.

Lemma Array_some_invalid_cases (folders : list json) :
  if forallb well_shaped folders
  then Array_some folder_is_invalid folders = Resolved false
  else Array_some folder_is_invalid folders = Resolved true
       \/ exists e, Array_some folder_is_invalid folders = Rejected e.
Proof.
  induction folders as [| folder rest IH]; cbn; [reflexivity |].
  pose proof (folder_is_invalid_cases folder) as Hf.
  destruct (well_shaped folder); cbn.
  - rewrite Hf; cbn. exact IH.
  - destruct Hf as [-> | [e ->]]; cbn; [left; reflexivity | right; eauto].
Qed.

Lemma validate_cases (result : json) :
  match result with
  | JArr folders =>
      if forallb well_shaped folders then validate result = Resolved folders
      else exists e, validate result = Rejected e
  | _ => exists e, validate result = Rejected e
  end.
Proof.
  destruct result as [| b | q | s | folders | props]; cbn; eauto.
  pose proof (Array_some_invalid_cases folders) as Hs.
  destruct (forallb well_shaped folders).
  - rewrite Hs; reflexivity.
  - destruct Hs as [-> | [e ->]]; cbn; eauto.
Qed.

(** Whatever goes wrong inside the [try], the caller sees one error. *)
Lemma organizePhotos_rejects_with (photos : list Photo) (e : JsError) :
  organizePhotos P photos = Rejected e -> e = Error failure_message.
Proof.
  unfold organizePhotos, try_catch.
  destruct (_ ≫= _) as [a | e' |]; congruence.
Qed.

(** The value of [organizePhotos] once the service has replied with text. *)
Lemma organizePhotos_on_reply (photos : list Photo) (imageParts : list Part)
    (reply : string) :
  Promise_all (map (fun photo => fileToGenerativePart P (file photo)) photos)
    = Resolved imageParts ->
  generateContent P (request_for imageParts) = Resolved {| text := Some reply |} ->
  organizePhotos P photos =
    match JSON_parse P (trim P reply) with
    | Some (JArr folders) =>
        if forallb well_shaped folders then Resolved folders
        else Rejected (Error failure_message)
    | _ => Rejected (Error failure_message)
    end.
Proof.
  intros Hparts Hreply. unfold organizePhotos.
  rewrite Hparts; cbn. rewrite Hreply; cbn.
  destruct (JSON_parse P (trim P reply)) as [result |]; cbn; [| reflexivity].
  pose proof (validate_cases result) as Hv.
  destruct result as [| b | q | s | folders | props];
    try (destruct Hv as [e ->]; reflexivity).
  destruct (forallb well_shaped folders).
  - rewrite Hv; reflexivity.
  - destruct Hv as [e ->]; reflexivity.
Qed.

(** A resolved call hands back the decoded array itself. *)
Lemma organizePhotos_resolved_inv (photos : list Photo) (folders : list json) :
  organizePhotos P photos = Resolved folders ->
  exists imageParts reply,
    Promise_all (map (fun photo => fileToGenerativePart P (file photo)) photos)
      = Resolved imageParts
    /\ generateContent P (request_for imageParts) = Resolved {| text := Some reply |}
    /\ JSON_parse P (trim P reply) = Some (JArr folders)
    /\ forallb well_shaped folders = true.
Proof.
  intros H.
  destruct (Promise_all (map (fun photo => fileToGenerativePart P (file photo)) photos))
    as [imageParts | e |] eqn:Hparts;
    [| unfold organizePhotos in H; rewrite Hparts in H; cbn in H; congruence ..].
  destruct (generateContent P (request_for imageParts)) as [[[reply |]] | e |] eqn:Hreply;
    try (unfold organizePhotos in H; rewrite Hparts in H; cbn in H;
         rewrite Hreply in H; cbn in H; congruence).
  rewrite (organizePhotos_on_reply _ _ _ Hparts Hreply) in H.
  exists imageParts, reply. repeat split; try assumption.
  - destruct (JSON_parse P (trim P reply)) as [[| | | | fs |] |]; try congruence.
    destruct (forallb well_shaped fs); congruence.
  - destruct (JSON_parse P (trim P reply)) as [[| | | | fs |] |]; try congruence.
    destruct (forallb well_shaped fs) eqn:Hw; congruence.
Qed.
End ClientFacts.

(** A payload that matches the declared schema passes the check. *)
Lemma conforms_declared_well_shaped (folders : list json) :
  conforms responseSchema_declared (JArr folders) = true ->
  forallb well_shaped folders = true.
Proof.
  cbn [conforms responseSchema_declared]. intros H.
  induction folders as [| folder rest IH]; [reflexivity |].
  cbn [forallb] in H |- *. apply andb_prop in H as [Hf Hrest].
  rewrite (IH Hrest), andb_true_r. clear IH Hrest rest.
  destruct folder as [| b | q | s | items | props]; cbn in Hf; try discriminate.
  unfold well_shaped.
  destruct (own_property "folderName" props) as [[| | | s | |]|]; cbn in Hf |- *;
    try discriminate;
  destruct (own_property "description" props) as [[| | | s' | |]|]; cbn in Hf |- *;
    try discriminate;
  destruct (own_property "photoIndices" props) as [[| | | | |]|]; cbn in Hf |- *;
    try discriminate; reflexivity.
Qed.

(** C1, as the code has it. Once the service has replied with text, the call
    resolves exactly when the text decodes to an array whose every element is
    an object with a string [folderName] and an array [photoIndices], and then
    with that whole array; every other reply makes the whole call fail with
    the one error of the client. Nothing else of the declared schema
    ([description], integer entries) is looked at; a reply that does match
    the declared schema passes. *)
Theorem organizePhotos_checks_names_and_index_arrays
    (P : Platform) (photos : list Photo) (imageParts : list Part) (reply : string) :
  Promise_all (map (fun photo => fileToGenerativePart P (file photo)) photos)
    = Resolved imageParts ->
  generateContent P (request_for imageParts) = Resolved {| text := Some reply |} ->
  organizePhotos P photos =
    match JSON_parse P (trim P reply) with
    | Some (JArr folders) =>
        if forallb well_shaped folders then Resolved folders
        else Rejected (Error failure_message)
    | _ => Rejected (Error failure_message)
    end
  /\ (forall payload,
        JSON_parse P (trim P reply) = Some payload ->
        conforms responseSchema_declared payload = true ->
        exists folders, payload = JArr folders
                        /\ organizePhotos P photos = Resolved folders).
Proof.
  intros Hparts Hreply.
  pose proof (organizePhotos_on_reply P photos imageParts reply Hparts Hreply) as Heq.
  split; [exact Heq |].
  intros payload Hparse Hconf. rewrite Hparse in Heq.
  destruct payload as [| b | q | s | folders | props]; try discriminate.
  exists folders. split; [reflexivity |].
  by rewrite (conforms_declared_well_shaped folders Hconf) in Heq.
Qed.

Lemma organizePhotos_checks_names_and_index_arrays_witness :
  let P := Sample.scripted Sample.reply_good (Some Sample.decoded_good) in
  Promise_all (map (fun photo => fileToGenerativePart P (file photo)) Sample.two_photos)
    = Resolved [InlineData (Some "QkVBQ0g=") "image/png";
                InlineData (Some "Q0lUWQ==") "image/jpeg"]
  /\ organizePhotos P Sample.two_photos =
       match JSON_parse P (trim P Sample.reply_good) with
       | Some (JArr folders) =>
           if forallb well_shaped folders then Resolved folders
           else Rejected (Error failure_message)
       | _ => Rejected (Error failure_message)
       end.
Proof.
  intros P. split; [reflexivity |].
  apply (organizePhotos_checks_names_and_index_arrays P Sample.two_photos
           [InlineData (Some "QkVBQ0g=") "image/png";
            InlineData (Some "Q0lUWQ==") "image/jpeg"]
           Sample.reply_good); reflexivity.
Defined.

(** C1 as stated fails: a reply without [description] and with a string among
    the indices does not match the declared schema, and is returned. *)
Lemma organizePhotos_returns_nonconforming_payload :
  let P := Sample.scripted Sample.reply_loose (Some Sample.decoded_loose) in
  JSON_parse P (trim P Sample.reply_loose) = Some Sample.decoded_loose
  /\ conforms responseSchema_declared Sample.decoded_loose = false
  /\ organizePhotos P Sample.two_photos
     = Resolved [JObj [("folderName", JStr "Trips");
                       ("photoIndices", JArr [JStr "zero"])]].
Proof. repeat split; vm_compute; reflexivity. Qed.

(** ** State controller: organize *)

(** C2. With no photos, a click on Organize calls [organizePhotos] not at all
    and changes the error message only, which is then on screen. *)
Theorem handleOrganizeClick_without_photos
    (client : list Photo -> Promise (list json)) (st : State) :
  photos st = [] ->
  handleOrganizeClick client st
    = (setError (Some "Please upload some photos first.") st, [])
  /\ error_banner (handleOrganizeClick client st).1
     = Some "Please upload some photos first.".
Proof.
  intros Hempty. unfold handleOrganizeClick, organize_begin.
  rewrite Hempty; cbn. split; reflexivity.
Qed.

Lemma handleOrganizeClick_without_photos_witness :
  photos initial = []
  /\ handleOrganizeClick (fun _ => Pending) initial
       = (setError (Some "Please upload some photos first.") initial, [])
  /\ error_banner (handleOrganizeClick (fun _ => Pending) initial).1
       = Some "Please upload some photos first.".
Proof.
  split; [reflexivity |].
  apply (handleOrganizeClick_without_photos (fun _ => Pending) initial).
  reflexivity.
Defined.

(** C4. When the client resolves, the controller stores the very list it got,
    and that list is the decoded reply itself. *)
Theorem organize_success_stores_the_client_result
    (P : Platform) (st : State) (folders : list json) :
  photos st <> [] ->
  organizePhotos P (photos st) = Resolved folders ->
  organizedFolders (handleOrganizeClick (organizePhotos P) st).1 = Some folders
  /\ (handleOrganizeClick (organizePhotos P) st).2 = [photos st]
  /\ exists imageParts reply,
       generateContent P (request_for imageParts) = Resolved {| text := Some reply |}
       /\ JSON_parse P (trim P reply) = Some (JArr folders).
Proof.
  intros Hphotos Hok. unfold handleOrganizeClick, organize_begin.
  destruct (photos st) as [| p ps] eqn:Hp; [congruence |]. cbn.
  rewrite Hok; cbn. repeat split.
  destruct (organizePhotos_resolved_inv P _ _ Hok) as (parts & reply & _ & Hr & Hj & _).
  eauto.
Qed.

(** C5. When the client rejects, the photos are the ones the call started
    with, the error is the rejection's message, and no result is stored. *)
Theorem organize_failure_keeps_photos_sets_error
    (P : Platform) (st : State) (e : JsError) :
  photos st <> [] ->
  organizePhotos P (photos st) = Rejected e ->
  let st' := (handleOrganizeClick (organizePhotos P) st).1 in
  photos st' = photos st
  /\ error st' = Some (message e)
  /\ organizedFolders st' = None
  /\ isLoading st' = false.
Proof.
  intros Hphotos Hfail.
  pose proof (organizePhotos_rejects_with P _ _ Hfail) as ->.
  unfold handleOrganizeClick, organize_begin.
  destruct (photos st) as [| p ps] eqn:Hp; [congruence |]. cbn.
  rewrite Hfail; cbn. rewrite Hp. repeat split.
Qed.

Lemma organize_success_stores_the_client_result_witness :
  let P := Sample.scripted Sample.reply_good (Some Sample.decoded_good) in
  let st := setPhotos Sample.two_photos initial in
  let folders := [JObj [("folderName", JStr "Trips"); ("description", JStr "Two trips.");
                        ("photoIndices", JArr [JNum 0; JNum 1])]] in
  photos st <> []
  /\ organizePhotos P (photos st) = Resolved folders
  /\ organizedFolders (handleOrganizeClick (organizePhotos P) st).1 = Some folders.
Proof.
  intros P st folders.
  split; [discriminate |]. split; [reflexivity |].
  apply (organize_success_stores_the_client_result P st folders);
    [discriminate | reflexivity].
Defined.

Lemma organize_failure_keeps_photos_sets_error_witness :
  let P := Sample.scripted Sample.reply_good None in
  let st := setPhotos Sample.two_photos initial in
  photos st <> []
  /\ organizePhotos P (photos st) = Rejected (Error failure_message)
  /\ photos (handleOrganizeClick (organizePhotos P) st).1 = photos st
  /\ error (handleOrganizeClick (organizePhotos P) st).1 = Some failure_message
  /\ organizedFolders (handleOrganizeClick (organizePhotos P) st).1 = None
  /\ isLoading (handleOrganizeClick (organizePhotos P) st).1 = false.
Proof.
  intros P st.
  split; [discriminate |]. split; [reflexivity |].
  apply (organize_failure_keeps_photos_sets_error P st (Error failure_message));
    [discriminate | reflexivity].
Defined.

(** ** Photo intake *)

Lemma to_photos_spec (files : list File) (b : Browser) :
  map file (to_photos files b).1 = files
  /\ map previewUrl (to_photos files b).1 = seq (nextUrl b) (length files)
  /\ nextUrl (to_photos files b).2 = nextUrl b + length files
  /\ revocations (to_photos files b).2 = revocations b
  /\ (forall i f, files !! i = Some f ->
        store (to_photos files b).2 !! (nextUrl b + i) = Some f)
  /\ (forall u, u < nextUrl b \/ nextUrl b + length files <= u ->
        store (to_photos files b).2 !! u = store b !! u).
Proof.
  revert b. induction files as [| f rest IH]; intros b.
  - cbn. repeat split; try lia; try done.
  - cbn [to_photos createObjectURL].
    specialize (IH {| nextUrl := S (nextUrl b);
                      store := <[nextUrl b := f]> (store b);
                      revocations := revocations b |}).
    destruct (to_photos rest _) as [ps b2]. cbn in IH |- *.
    destruct IH as (Hfile & Hurl & Hnext & Hrev & Hnew & Hold).
    repeat split.
    + by rewrite Hfile.
    + by rewrite Hurl.
    + lia.
    + done.
    + intros [| i] g Hi; cbn in Hi.
      * injection Hi as <-. rewrite Nat.add_0_r, Hold by lia.
        apply lookup_insert_eq.
      * replace (nextUrl b + S i) with (S (nextUrl b) + i) by lia. by apply Hnew.
    + intros u Hu. rewrite Hold by lia. apply lookup_insert_ne. lia.
Qed.

Lemma to_photos_live (files : list File) (b : Browser) (u : ObjectURL) :
  live u (to_photos files b).2 ->
  live u b \/ u ∈ map previewUrl (to_photos files b).1.
Proof.
  destruct (to_photos_spec files b) as (_ & Hurl & _ & _ & _ & Hold).
  intros Hlive.
  destruct (decide (u < nextUrl b \/ nextUrl b + length files <= u)) as [Hout | Hin].
  - left. unfold live in *. by rewrite <- Hold.
  - right. rewrite Hurl. apply list_elem_of_In, in_seq. lia.
Qed.

(** C6. Whatever the files, [handleFileChange] completes and hands on exactly
    the files whose type starts with [image/], in their order, each with an
    object URL the browser had not given out before and now keeps for that
    file. *)
Theorem handleFileChange_keeps_images_in_order (files : list File) (b : Browser) :
  exists photoArray b',
    handleFileChange (Some files) b = (Some photoArray, b')
    /\ map file photoArray = List.filter is_image files
    /\ map previewUrl photoArray = seq (nextUrl b) (length photoArray)
    /\ NoDup (map previewUrl photoArray)
    /\ Forall (fun p => nextUrl b <= previewUrl p
                        /\ store b' !! previewUrl p = Some (file p)) photoArray
    /\ revocations b' = revocations b.
Proof.
  unfold handleFileChange.
  destruct (to_photos_spec (List.filter is_image files) b)
    as (Hfile & Hurl & _ & Hrev & Hnew & _).
  destruct (to_photos (List.filter is_image files) b) as [ps b'] eqn:Hps.
  cbn in *. exists ps, b'.
  assert (Hlen : length ps = length (List.filter is_image files)).
  { by rewrite <- Hfile, length_map. }
  repeat split; try done.
  - by rewrite Hlen.
  - rewrite Hurl. apply NoDup_ListNoDup, List.seq_NoDup.
  - apply Forall_lookup_2. intros i p Hi.
    assert (Hu : map previewUrl ps !! i = Some (previewUrl p)).
    { change (map previewUrl ps) with (previewUrl <$> ps).
      by rewrite list_lookup_fmap, Hi. }
    rewrite Hurl in Hu. apply lookup_seq in Hu as [Hu Hlt].
    assert (Hf : List.filter is_image files !! i = Some (file p)).
    { rewrite <- Hfile. change (map file ps) with (file <$> ps).
      by rewrite list_lookup_fmap, Hi. }
    rewrite Hu. split; [lia | by apply Hnew].
Qed.

(** ** State controller: object URLs *)

Lemma revoke_each_spec (ps : list Photo) (b : Browser) :
  nextUrl (revoke_each ps b) = nextUrl b
  /\ revocations (revoke_each ps b) = revocations b ++ map previewUrl ps
  /\ forall u, store (revoke_each ps b) !! u
              = if decide (u ∈ map previewUrl ps) then None else store b !! u.
Proof.
  unfold revoke_each. revert b.
  induction ps as [| p ps IH]; intros b; cbn [foldl map].
  - split; [done |]. split; [by rewrite app_nil_r |].
    intros u. by rewrite decide_False by apply not_elem_of_nil.
  - destruct (IH (revokeObjectURL (previewUrl p) b)) as (Hn & Hr & Hs).
    split; [| split].
    + by rewrite Hn.
    + rewrite Hr. cbn. by rewrite <- app_assoc.
    + intros u. rewrite Hs. cbn [revokeObjectURL store].
      destruct (decide (u = previewUrl p)) as [-> | Hne].
      * rewrite lookup_delete_eq.
        rewrite (decide_True (P := _ ∈ _ :: _)) by apply list_elem_of_here.
        by destruct (decide _).
      * rewrite lookup_delete_ne by done.
        destruct (decide (u ∈ map previewUrl ps)) as [Hin | Hnin].
        -- by rewrite decide_True by (by apply list_elem_of_further).
        -- rewrite decide_False; [done |].
           intros [? | ?]%elem_of_cons; done.
Qed.

Lemma revoke_each_not_live (ps : list Photo) (b : Browser) (u : ObjectURL) :
  live u (revoke_each ps b) <-> live u b /\ u ∉ map previewUrl ps.
Proof.
  destruct (revoke_each_spec ps b) as (_ & _ & Hs). unfold live. rewrite Hs.
  destruct (decide (u ∈ map previewUrl ps)) as [Hin | Hnin].
  - split; [intros [? ?]; discriminate | intros [_ ?]; done].
  - split; [done | by intros [? _]].
Qed.

Lemma times_revoked_revoke_each (ps : list Photo) (b : Browser) (u : ObjectURL) :
  times_revoked u (revoke_each ps b)
  = times_revoked u b + length (filter (λ v, v = u) (map previewUrl ps)).
Proof.
  destruct (revoke_each_spec ps b) as (_ & Hr & _). unfold times_revoked.
  by rewrite Hr, filter_app, length_app.
Qed.

Lemma selectPhotos_unfold (rendered sel : list Photo) (s : State * Browser) :
  selectPhotos rendered sel s
  = (setError None (setOrganizedFolders None (setPhotos sel s.1)),
     revoke_each (photos s.1) (revoke_each rendered s.2)).
Proof. reflexivity. Qed.

Lemma reset_unfold (s : State * Browser) :
  reset s
  = (setIsLoading false (setError None (setOrganizedFolders None (setPhotos [] s.1))),
     revoke_each (photos s.1) (revoke_each (photos s.1) s.2)).
Proof. reflexivity. Qed.

Lemma intake_files (rendered : list Photo) (files : list File)
    (st : State) (b : Browser) :
  intake rendered (handleFileChange (Some files) b) st
  = selectPhotos rendered (to_photos (List.filter is_image files) b).1
      (st, (to_photos (List.filter is_image files) b).2).
Proof.
  unfold handleFileChange.
  by destruct (to_photos (List.filter is_image files) b) as [ps b'].
Qed.

Lemma replaced_not_live (old extra : list Photo) (b : Browser) :
  Forall (fun p => ¬ live (previewUrl p) (revoke_each old (revoke_each extra b))) old.
Proof.
  apply Forall_forall. intros p Hp [_ Hnin]%revoke_each_not_live.
  apply Hnin. change (map previewUrl old) with (previewUrl <$> old).
  by apply list_elem_of_fmap_2.
Qed.

Lemma intake_no_leak (rendered : list Photo) (files : list File)
    (st : State) (b : Browser) :
  no_leak (st, b) ->
  no_leak (intake rendered (handleFileChange (Some files) b) st).
Proof.
  intros Hinv. unfold handleFileChange.
  pose proof (to_photos_live (List.filter is_image files) b) as Hlive.
  destruct (to_photos (List.filter is_image files) b) as [ps b'].
  unfold intake; cbn [fst snd] in *. rewrite selectPhotos_unfold; cbn [fst snd].
  intros u [[Hu _]%revoke_each_not_live Hold]%revoke_each_not_live. cbn.
  destruct (Hlive u Hu) as [Hb | Hnew]; [| done].
  exfalso. apply Hold. by apply (Hinv u).
Qed.

Lemma reachable_no_leak (s : State * Browser) :
  reachable s -> no_leak s.
Proof.
  induction 1 as [| ev [st b] Hreach IH Hen].
  - intros u [f Hf]. cbn in Hf. by rewrite lookup_empty in Hf.
  - destruct ev as [[files |] | rendered [files |] | | P |]; cbn [step fst snd].
    + by apply intake_no_leak.
    + exact IH.
    + unfold onDrop.
      destruct (negb (isLoading st) && (0 <? length files)); [| exact IH].
      by apply intake_no_leak.
    + exact IH.
    + intros u Hu. cbn in Hu |- *. unfold organize_begin.
      destruct (length (photos st) =? 0); cbn; by apply IH.
    + intros u Hu. cbn in Hu |- *.
      destruct (organizePhotos P (photos st)); cbn; by apply IH.
    + rewrite reset_unfold. cbn [fst snd].
      intros u [[Hu _]%revoke_each_not_live Hold]%revoke_each_not_live.
      exfalso. apply Hold. by apply (IH u).
Qed.

(** C7, as the code has it. In every state the controller reaches, no object
    URL is live but those of the photos on screen: whatever belonged to a
    replaced or cleared photo set has been released. A new selection and a
    reset leave no URL of the old set live. Release is not once: the handler
    revokes the old set, and the cleanup of the effect on [photos] revokes it
    again, so a selection through the current handler and a reset each add two
    revocations per URL of the old set. *)
Theorem object_urls_released_not_leaked (s : State * Browser) :
  reachable s ->
  (forall u, live u s.2 -> u ∈ map previewUrl (photos s.1))
  /\ (forall rendered sel,
        Forall (fun p => ¬ live (previewUrl p) (selectPhotos rendered sel s).2)
               (photos s.1))
  /\ Forall (fun p => ¬ live (previewUrl p) (reset s).2) (photos s.1)
  /\ (forall sel u,
        times_revoked u (selectPhotos (photos s.1) sel s).2
        = times_revoked u s.2
          + 2 * length (filter (λ v, v = u) (map previewUrl (photos s.1))))
  /\ (forall u,
        times_revoked u (reset s).2
        = times_revoked u s.2
          + 2 * length (filter (λ v, v = u) (map previewUrl (photos s.1)))).
Proof.
  intros Hreach. split; [exact (reachable_no_leak s Hreach) |].
  split; [intros rendered sel; rewrite selectPhotos_unfold; apply replaced_not_live |].
  split; [rewrite reset_unfold; apply replaced_not_live |].
  split.
  - intros sel u. rewrite selectPhotos_unfold. cbn [snd].
    rewrite !times_revoked_revoke_each. lia.
  - intros u. rewrite reset_unfold. cbn [snd].
    rewrite !times_revoked_revoke_each. lia.
Qed.

Lemma object_urls_released_not_leaked_witness :
  let s := step (FilesPicked (Some [Sample.beach; Sample.notes; Sample.city]))
                (initial, URL.fresh) in
  reachable s
  /\ map previewUrl (photos s.1) = [0; 1]
  /\ (forall u, live u s.2 -> u ∈ map previewUrl (photos s.1))
  /\ Forall (fun p => ¬ live (previewUrl p) (reset s).2) (photos s.1)
  /\ times_revoked 1 (reset s).2 = times_revoked 1 s.2 + 2 * 1.
Proof.
  intros s.
  assert (Hreach : reachable s).
  { apply (reach_step (FilesPicked _) (initial, URL.fresh) reach_mount).
    reflexivity. }
  pose proof (object_urls_released_not_leaked s Hreach)
    as (Hleak & _ & Hreset & _ & Hcount).
  split; [exact Hreach |]. split; [reflexivity |].
  split; [exact Hleak |]. split; [exact Hreset |]. exact (Hcount 1).
Defined.

(** C7 as stated fails: one image is picked, then Reset is clicked; the URL
    of that image has by then been revoked twice. *)
Lemma object_url_revoked_twice_by_reset :
  let s1 := step (FilesPicked (Some [Sample.beach])) (initial, URL.fresh) in
  let s2 := step ResetClicked s1 in
  map previewUrl (photos s1.1) = [0]
  /\ revocations s1.2 = []
  /\ enabled ResetClicked s1.1 = true
  /\ revocations s2.2 = [0; 0]
  /\ times_revoked 0 s2.2 = 2.
Proof. repeat split. Qed.

(** C8. A second reset changes nothing, in the controller or in the browser;
    after a reset there are no photos, no result, no error, no call in
    flight, and no URL of the cleared photos is live. *)
Theorem reset_twice_is_reset_once (s : State * Browser) :
  reset (reset s) = reset s
  /\ photos (reset s).1 = []
  /\ organizedFolders (reset s).1 = None
  /\ error (reset s).1 = None
  /\ isLoading (reset s).1 = false
  /\ Forall (fun p => ¬ live (previewUrl p) (reset s).2) (photos s.1).
Proof.
  split; [reflexivity |]. repeat (split; [reflexivity |]).
  rewrite reset_unfold. apply replaced_not_live.
Qed.

(** ** State controller: error and result *)

Lemma reachable_phases (s : State * Browser) :
  reachable s ->
  (is_Some (organizedFolders s.1) -> photos s.1 <> [] /\ error s.1 = None)
  /\ (isLoading s.1 = true ->
      error s.1 = None /\ organizedFolders s.1 = None /\ photos s.1 <> []).
Proof.
  induction 1 as [| ev [st b] Hreach [IHres IHload] Hen]; cbn [fst snd] in *.
  - split; [intros [? ?]; discriminate | discriminate].
  - destruct ev as [[files |] | rendered [files |] | | P |]; cbn [step fst snd enabled] in *.
    + apply negb_true_iff in Hen.
      rewrite intake_files, selectPhotos_unfold; cbn.
      split; [intros [? ?]; discriminate | congruence].
    + by split.
    + apply negb_true_iff in Hen. unfold onDrop. rewrite Hen; cbn [negb andb].
      destruct (0 <? length files); [| by split].
      rewrite intake_files, selectPhotos_unfold; cbn.
      split; [intros [? ?]; discriminate | congruence].
    + by split.
    + apply negb_true_iff in Hen. unfold organize_begin.
      destruct (photos st) as [| p ps] eqn:Hp; cbn.
      * split; [| congruence].
        intros Hsome. destruct (IHres Hsome) as [Hne _]. congruence.
      * rewrite Hp. split; [intros [? ?]; discriminate | done].
    + destruct (IHload Hen) as (Herr & Hres & Hne).
      destruct (organizePhotos P (photos st)) as [folders | e |]; cbn.
      * split; [done | discriminate].
      * rewrite Hres. split; [intros [? ?]; discriminate | discriminate].
      * by split.
    + rewrite reset_unfold; cbn.
      split; [intros [? ?]; discriminate | discriminate].
Qed.

(** C9. In no state the controller reaches are an error message and an
    organization result both present. *)
Theorem error_and_result_never_together (s : State * Browser) :
  reachable s ->
  (is_Some (error s.1) -> organizedFolders s.1 = None)
  /\ (is_Some (organizedFolders s.1) -> error s.1 = None).
Proof.
  intros Hreach. destruct (reachable_phases s Hreach) as [Hres _].
  split; [| by intros [_ ?]%Hres].
  intros [m Hm]. destruct (organizedFolders s.1) as [folders |] eqn:Hf; [| done].
  destruct Hres as [_ Herr]; [by eexists |]. congruence.
Qed.

Lemma error_and_result_never_together_witness :
  let P := Sample.scripted Sample.reply_good None in
  let s := step (OrganizeSettled P)
             (step OrganizeClicked
                (step (FilesPicked (Some [Sample.beach])) (initial, URL.fresh))) in
  reachable s
  /\ error s.1 = Some failure_message
  /\ (is_Some (error s.1) -> organizedFolders s.1 = None)
  /\ (is_Some (organizedFolders s.1) -> error s.1 = None).
Proof.
  intros P s.
  assert (Hreach : reachable s).
  { apply (reach_step (OrganizeSettled P)); [| reflexivity].
    apply (reach_step OrganizeClicked); [| reflexivity].
    apply (reach_step (FilesPicked _) (initial, URL.fresh) reach_mount).
    reflexivity. }
  split; [exact Hreach |]. split; [reflexivity |].
  exact (error_and_result_never_together s Hreach).
Defined.

(** C10. A non-empty list of files none of which is an image still reaches
    [handleFilesSelected], with no photos: the photos, the result and the
    error of the controller are cleared, nothing else of its state changes,
    and no URL of the former photos stays live. *)
Theorem intake_without_images_clears (rendered : list Photo) (files : list File)
    (st : State) (b : Browser) :
  files <> [] ->
  Forall (fun f => is_image f = false) files ->
  handleFileChange (Some files) b = (Some [], b)
  /\ (intake rendered (handleFileChange (Some files) b) st).1
     = setError None (setOrganizedFolders None (setPhotos [] st))
  /\ photos (intake rendered (handleFileChange (Some files) b) st).1 = []
  /\ organizedFolders (intake rendered (handleFileChange (Some files) b) st).1 = None
  /\ error (intake rendered (handleFileChange (Some files) b) st).1 = None
  /\ Forall (fun p => ¬ live (previewUrl p)
                        (intake rendered (handleFileChange (Some files) b) st).2)
            (photos st).
Proof.
  intros _ Hnone.
  assert (Hfilter : List.filter is_image files = []).
  { induction Hnone as [| f rest Hf _ IH]; [reflexivity |]. cbn. by rewrite Hf. }
  unfold handleFileChange. rewrite Hfilter. cbn [to_photos].
  unfold intake; cbn [fst snd]. rewrite selectPhotos_unfold; cbn [fst snd].
  repeat (split; [reflexivity |]). apply replaced_not_live.
Qed.

Lemma intake_without_images_clears_witness :
  let st := setError (Some "Please upload some photos first.")
              (setPhotos Sample.two_photos initial) in
  let b := (to_photos [Sample.beach; Sample.city] URL.fresh).2 in
  [Sample.notes] <> []
  /\ Forall (fun f => is_image f = false) [Sample.notes]
  /\ handleFileChange (Some [Sample.notes]) b = (Some [], b)
  /\ photos (intake (photos st) (handleFileChange (Some [Sample.notes]) b) st).1 = []
  /\ error (intake (photos st) (handleFileChange (Some [Sample.notes]) b) st).1 = None.
Proof.
  intros st b.
  pose proof (intake_without_images_clears (photos st) [Sample.notes] st b)
    as (Hcall & _ & Hphotos & _ & Herr & _);
    [discriminate | by repeat constructor |].
  split; [discriminate |]. split; [by repeat constructor |].
  split; [exact Hcall |]. split; [exact Hphotos | exact Herr].
Defined.

(** ** Folder export *)

Lemma Array_map_photoPromise_undefined (R : Runtime) (members : list (option Photo)) :
  None ∈ members ->
  Array_map (photoPromise R) members
  = Rejected (TypeError "Cannot read properties of undefined").
Proof.
  induction members as [| [p |] rest IH]; intros Hin.
  - by apply not_elem_of_nil in Hin.
  - apply elem_of_cons in Hin as [? | Hin]; [discriminate |].
    cbn. by rewrite (IH Hin).
  - reflexivity.
Qed.

Lemma photosInFolder_out_of_range (folder : OrganizedFolder) (allPhotos : list Photo)
    (index : Z) :
  index ∈ photoIndices folder ->
  (Z.of_nat (length allPhotos) <= index)%Z ->
  None ∈ photosInFolder folder allPhotos.
Proof.
  intros Hin Hge. unfold photosInFolder.
  change (map (Array_at allPhotos) (photoIndices folder))
    with (Array_at allPhotos <$> photoIndices folder).
  apply list_elem_of_fmap. exists index. split; [| done].
  unfold Array_at. destruct (0 <=? index)%Z; [| done].
  symmetry. apply lookup_ge_None. lia.
Qed.

(** A click on Download, in a modal that is not already zipping, for a
    folder with an index at or beyond the number of photos ends in the
    [catch] branch whatever the network does. *)
Lemma handleDownload_fails_on_index_out_of_range
    (R : Runtime) (folder : OrganizedFolder) (allPhotos : list Photo) (index : Z) :
  index ∈ photoIndices folder ->
  (Z.of_nat (length allPhotos) <= index)%Z ->
  handleDownload R false folder allPhotos
  = (false, Failed (TypeError "Cannot read properties of undefined")).
Proof.
  intros Hin Hge. unfold handleDownload.
  rewrite (Array_map_photoPromise_undefined R)
    by (by apply photosInFolder_out_of_range with index).
  reflexivity.
Qed.

(** With every index in range and every fetch answered, the same click
    downloads one archive named after the folder. *)
Example handleDownload_in_range :
  let folder := {| folderName := "Beach Trip 2024!"; description := "Two trips.";
                   photoIndices := [1; 0]%Z |} in
  let R := Sample.runtime (to_photos [Sample.beach; Sample.city] URL.fresh).2 in
  handleDownload R false folder Sample.two_photos
  = (false, Downloaded "beach_trip_2024_.zip" "city.jpg=Q0lUWQ==;beach.png=QkVBQ0g=;").
Proof. vm_compute. reflexivity. Qed.

(** * Further properties *)

(** ** Promises *)

Lemma first_rejection_none {A} (l : list (Promise A)) :
  (forall e, Rejected e ∉ l) -> first_rejection l = None.
Proof.
  induction l as [| x rest IH]; intros Hno; [reflexivity |].
  destruct x as [a | e |]; cbn.
  - apply IH. intros e He. apply (Hno e). by apply list_elem_of_further.
  - exfalso. apply (Hno e). apply list_elem_of_here.
  - apply IH. intros e He. apply (Hno e). by apply list_elem_of_further.
Qed.

Lemma first_rejection_some {A} (l : list (Promise A)) (e : JsError) :
  Rejected e ∈ l -> exists e', first_rejection l = Some e'.
Proof.
  induction l as [| x rest IH]; intros Hin.
  - by apply not_elem_of_nil in Hin.
  - destruct x as [a | e0 |]; cbn; [| by eexists |];
      apply elem_of_cons in Hin as [? | Hin]; try discriminate; by apply IH.
Qed.

Lemma all_resolved_pending {A} (l : list (Promise A)) :
  Pending ∈ l -> all_resolved l = None.
Proof.
  induction l as [| x rest IH]; intros Hin.
  - by apply not_elem_of_nil in Hin.
  - destruct x as [a | e |]; cbn; try reflexivity.
    apply elem_of_cons in Hin as [? | Hin]; [discriminate |].
    by rewrite (IH Hin).
Qed.

Lemma Promise_all_Resolved {A} (values : list A) :
  Promise_all (map Resolved values) = Resolved values.
Proof.
  unfold Promise_all.
  assert (Hfirst : first_rejection (map Resolved values) = None).
  { induction values as [| v rest IH]; [reflexivity | exact IH]. }
  assert (Hall : all_resolved (map Resolved values) = Some values).
  { induction values as [| v rest IH]; [reflexivity |]. cbn. by rewrite IH. }
  by rewrite Hfirst, Hall.
Qed.

Lemma Promise_all_Rejected {A} (l : list (Promise A)) (e : JsError) :
  Rejected e ∈ l -> exists e', Promise_all l = Rejected e'.
Proof.
  intros Hin. destruct (first_rejection_some l e Hin) as [e' He'].
  exists e'. unfold Promise_all. by rewrite He'.
Qed.

Lemma Promise_all_Pending {A} (l : list (Promise A)) :
  (forall e, Rejected e ∉ l) -> Pending ∈ l -> Promise_all l = Pending.
Proof.
  intros Hno Hin. unfold Promise_all.
  by rewrite (first_rejection_none l Hno), (all_resolved_pending l Hin).
Qed.

(** ** Organizer client, further *)

Lemma fileToGenerativePart_never_rejects (P : Platform) (f : File) (e : JsError) :
  fileToGenerativePart P f <> Rejected e.
Proof. unfold fileToGenerativePart. by destruct (readAsDataURL P f). Qed.

Lemma encodings_pending (P : Platform) (ps : list Photo) (photo : Photo) :
  photo ∈ ps ->
  readAsDataURL P (file photo) = None ->
  Promise_all (map (fun photo => fileToGenerativePart P (file photo)) ps) = Pending.
Proof.
  intros Hin Hread. apply Promise_all_Pending.
  - intros e He.
    change (map (fun photo => fileToGenerativePart P (file photo)) ps)
      with ((fun photo => fileToGenerativePart P (file photo)) <$> ps) in He.
    apply list_elem_of_fmap in He as (q & Hq & _).
    by apply (fileToGenerativePart_never_rejects P (file q) e).
  - change (map (fun photo => fileToGenerativePart P (file photo)) ps)
      with ((fun photo => fileToGenerativePart P (file photo)) <$> ps).
    apply list_elem_of_fmap. exists photo. split; [| done].
    unfold fileToGenerativePart. by rewrite Hread.
Qed.

(** X1. When the read of one photo fails, the call never settles, whatever the
    service would have answered, and a click on Organize leaves the
    controller loading for good, with no error and no result. *)
Theorem organizePhotos_hangs_on_failed_read
    (P : Platform) (st : State) (photo : Photo) :
  photo ∈ photos st ->
  readAsDataURL P (file photo) = None ->
  organizePhotos P (photos st) = Pending
  /\ isLoading (handleOrganizeClick (organizePhotos P) st).1 = true
  /\ error (handleOrganizeClick (organizePhotos P) st).1 = None
  /\ organizedFolders (handleOrganizeClick (organizePhotos P) st).1 = None.
Proof.
  intros Hin Hread.
  assert (Hpending : organizePhotos P (photos st) = Pending).
  { unfold organizePhotos. by rewrite (encodings_pending P _ photo Hin Hread). }
  split; [exact Hpending |].
  unfold handleOrganizeClick, organize_begin.
  destruct (photos st) as [| p ps] eqn:Hp; [by apply not_elem_of_nil in Hin |].
  cbn. rewrite Hpending. by cbn.
Qed.

Lemma organizePhotos_hangs_on_failed_read_witness :
  let P := Fixtures.unreadable "city.jpg" Sample.reply_good (Some Sample.decoded_good) in
  let st := setPhotos Sample.two_photos initial in
  let photo := {| file := Sample.city; previewUrl := 1 |} in
  photo ∈ photos st
  /\ readAsDataURL P (file photo) = None
  /\ organizePhotos P (photos st) = Pending
  /\ isLoading (handleOrganizeClick (organizePhotos P) st).1 = true.
Proof.
  intros P st photo.
  assert (Hin : photo ∈ photos st) by (by repeat constructor).
  pose proof (organizePhotos_hangs_on_failed_read P st photo Hin eq_refl)
    as (Hpending & Hloading & _).
  split; [exact Hin |]. split; [reflexivity |]. split; [exact Hpending | exact Hloading].
Defined.

(** X2. Whatever went wrong, [organizePhotos] rejects with one and the same
    error, and after a click on Organize the controller's error is absent, the
    validation message, or that error's message: the fallback text of the
    handler is never stored. *)
Theorem organize_click_error_messages (P : Platform) (st : State) :
  (forall e, organizePhotos P (photos st) = Rejected e -> e = Error failure_message)
  /\ (error (handleOrganizeClick (organizePhotos P) st).1 = None
      \/ error (handleOrganizeClick (organizePhotos P) st).1
         = Some "Please upload some photos first."
      \/ error (handleOrganizeClick (organizePhotos P) st).1 = Some failure_message)
  /\ error (handleOrganizeClick (organizePhotos P) st).1
     <> Some "An unknown error occurred.".
Proof.
  assert (Hone : forall e, organizePhotos P (photos st) = Rejected e ->
                           e = Error failure_message).
  { intros e He. exact (organizePhotos_rejects_with P _ e He). }
  split; [exact Hone |].
  unfold handleOrganizeClick, organize_begin.
  destruct (photos st) as [| p ps] eqn:Hp; cbn.
  - split; [right; left; reflexivity | discriminate].
  - destruct (organizePhotos P (p :: ps)) as [folders | e |] eqn:Hcall; cbn.
    + split; [by left | discriminate].
    + rewrite (Hone e eq_refl). cbn. split; [right; right; reflexivity | discriminate].
    + split; [by left | discriminate].
Qed.

(** X3. A service failure, a reply without text and a reply that is not JSON
    all end in the same rejection; a service call that never returns leaves
    the call pending. *)
Theorem organizePhotos_without_usable_reply
    (P : Platform) (ps : list Photo) (imageParts : list Part) :
  Promise_all (map (fun photo => fileToGenerativePart P (file photo)) ps)
    = Resolved imageParts ->
  match generateContent P (request_for imageParts) with
  | Rejected _ => organizePhotos P ps = Rejected (Error failure_message)
  | Pending => organizePhotos P ps = Pending
  | Resolved response =>
      match text response with
      | None => organizePhotos P ps = Rejected (Error failure_message)
      | Some reply =>
          JSON_parse P (trim P reply) = None ->
          organizePhotos P ps = Rejected (Error failure_message)
      end
  end.
Proof.
  intros Hparts. unfold organizePhotos. rewrite Hparts. cbn.
  destruct (generateContent P (request_for imageParts)) as [[[reply |]] | e |]; cbn;
    try reflexivity.
  by intros ->.
Qed.

Lemma organizePhotos_without_usable_reply_witness :
  organizePhotos Fixtures.offline Sample.two_photos = Rejected (Error failure_message).
Proof.
  exact (organizePhotos_without_usable_reply Fixtures.offline Sample.two_photos
           [InlineData (Some "QkVBQ0g=") "image/png";
            InlineData (Some "Q0lUWQ==") "image/jpeg"] eq_refl).
Defined.

Lemma no_comma_cons (c : ascii) (s : string) :
  has_comma (String c s) = false -> Ascii.eqb c "," = false /\ has_comma s = false.
Proof.
  unfold has_comma. cbn. intros H%negb_false_iff.
  apply andb_prop in H as [Hc Hs]. split.
  - by apply negb_true_iff.
  - by rewrite Hs.
Qed.

Lemma split_without_comma (s : string) :
  has_comma s = false -> split "," s = [s].
Proof.
  induction s as [| c rest IH]; [reflexivity |].
  intros [Hc Hrest]%no_comma_cons. cbn [split]. by rewrite Hc, (IH Hrest).
Qed.

Lemma split_after_header (header rest : string) :
  has_comma header = false ->
  split "," (header +:+ "," +:+ rest) = header :: split "," rest.
Proof.
  induction header as [| c h IH]; [reflexivity |].
  intros [Hc Hh]%no_comma_cons.
  change (String c h +:+ "," +:+ rest) with (String c (h +:+ "," +:+ rest)).
  cbn [split]. by rewrite Hc, (IH Hh).
Qed.

(** X4. For a data URL [header,payload] with no further comma, the part sent
    for a file carries the payload alone, under the file's own MIME type. *)
Theorem fileToGenerativePart_strips_data_url_header
    (P : Platform) (f : File) (header payload : string) :
  readAsDataURL P f = Some (header +:+ "," +:+ payload) ->
  has_comma header = false ->
  has_comma payload = false ->
  fileToGenerativePart P f = Resolved (InlineData (Some payload) (type f)).
Proof.
  intros Hread Hheader Hpayload. unfold fileToGenerativePart. rewrite Hread.
  by rewrite (split_after_header header payload Hheader),
             (split_without_comma payload Hpayload).
Qed.

Lemma fileToGenerativePart_strips_data_url_header_witness :
  let P := Sample.scripted Sample.reply_good (Some Sample.decoded_good) in
  readAsDataURL P Sample.beach = Some ("data:image/png;base64" +:+ "," +:+ "QkVBQ0g=")
  /\ fileToGenerativePart P Sample.beach
     = Resolved (InlineData (Some "QkVBQ0g=") "image/png").
Proof.
  intros P. split; [reflexivity |].
  exact (fileToGenerativePart_strips_data_url_header P Sample.beach
           "data:image/png;base64" "QkVBQ0g=" eq_refl eq_refl eq_refl).
Defined.

Lemma all_resolved_encodings (P : Platform) (ps : list Photo) (imageParts : list Part) :
  all_resolved (map (fun photo => fileToGenerativePart P (file photo)) ps)
    = Some imageParts ->
  Forall2 (fun photo part => exists data, part = InlineData data (type (file photo)))
          ps imageParts.
Proof.
  revert imageParts. induction ps as [| p rest IH]; intros imageParts.
  - intros [= <-]. constructor.
  - cbn [map all_resolved]. unfold fileToGenerativePart at 1.
    destruct (readAsDataURL P (file p)) as [dataUrl |]; [| discriminate].
    destruct (all_resolved (map _ rest)) as [values |]; [| discriminate].
    intros [= <-]. constructor; [by eexists | by apply IH].
Qed.

Lemma encodings_shape (P : Platform) (ps : list Photo) (imageParts : list Part) :
  Promise_all (map (fun photo => fileToGenerativePart P (file photo)) ps)
    = Resolved imageParts ->
  Forall2 (fun photo part => exists data, part = InlineData data (type (file photo)))
          ps imageParts.
Proof.
  unfold Promise_all.
  destruct (first_rejection _); [discriminate |].
  destruct (all_resolved _) as [values |] eqn:Hall; [| discriminate].
  intros [= <-]. by apply (all_resolved_encodings P).
Qed.

(** X5. The call consults the service through one request only: the prompt
    followed by one inline part per photo, in order, each under the MIME type
    of its file. Two platforms that read, trim and parse alike and answer
    that request alike give the same outcome. *)
Theorem organizePhotos_depends_on_one_request
    (P P' : Platform) (ps : list Photo) (imageParts : list Part) :
  (forall f, readAsDataURL P' f = readAsDataURL P f) ->
  (forall t, trim P' t = trim P t) ->
  (forall t, JSON_parse P' t = JSON_parse P t) ->
  Promise_all (map (fun photo => fileToGenerativePart P (file photo)) ps)
    = Resolved imageParts ->
  generateContent P' (request_for imageParts)
    = generateContent P (request_for imageParts) ->
  contents (request_for imageParts) = TextPart prompt :: imageParts
  /\ Forall2 (fun photo part => exists data, part = InlineData data (type (file photo)))
             ps imageParts
  /\ organizePhotos P' ps = organizePhotos P ps.
Proof.
  intros Hread Htrim Hparse Hparts Hreply.
  split; [reflexivity |]. split; [by apply (encodings_shape P) |].
  assert (Hparts' :
    Promise_all (map (fun photo => fileToGenerativePart P' (file photo)) ps)
    = Resolved imageParts).
  { rewrite <- Hparts. f_equal. apply map_ext. intros photo.
    unfold fileToGenerativePart. by rewrite Hread. }
  unfold organizePhotos. rewrite Hparts, Hparts'. cbn. rewrite Hreply.
  destruct (generateContent P (request_for imageParts)) as [[[reply |]] | e |]; cbn;
    try reflexivity.
  by rewrite Htrim, Hparse.
Qed.

Lemma organizePhotos_depends_on_one_request_witness :
  let P := Sample.scripted Sample.reply_good (Some Sample.decoded_good) in
  let P' := Fixtures.two_only Sample.reply_good (Some Sample.decoded_good) in
  organizePhotos P' Sample.two_photos = organizePhotos P Sample.two_photos.
Proof.
  intros P P'.
  refine (proj2 (proj2 (organizePhotos_depends_on_one_request P P' Sample.two_photos
           [InlineData (Some "QkVBQ0g=") "image/png";
            InlineData (Some "Q0lUWQ==") "image/jpeg"] _ _ _ eq_refl eq_refl)));
    reflexivity.
Defined.

(** ** The folder grid *)

Lemma folder_card_well_shaped (folder : json) :
  well_shaped folder = true ->
  exists s n, folder_card folder = Resolved (Some (JStr s), Some n).
Proof.
  destruct folder as [| b | q | s | items | props]; try discriminate.
  unfold well_shaped, folder_card. cbn [get mbind Promise_bind].
  destruct (own_property "folderName" props) as [[| | | s | |] |]; try discriminate.
  destruct (own_property "photoIndices" props) as [[| | | | items |] |];
    try discriminate.
  intros _. by exists s, (length items).
Qed.

Lemma Array_map_all_resolved {A B} (f : A -> Promise B) (Q : B -> Prop) (l : list A) :
  Forall (fun x => exists y, f x = Resolved y /\ Q y) l ->
  exists ys, Array_map f l = Resolved ys /\ length ys = length l /\ Forall Q ys.
Proof.
  induction 1 as [| x rest (y & Hy & HQ) _ (ys & Hys & Hlen & HQs)].
  - by exists [].
  - exists (y :: ys). cbn. rewrite Hy; cbn. rewrite Hys; cbn.
    repeat split; [by rewrite Hlen | by constructor].
Qed.

(** X6. Whatever list [organizePhotos] resolves with, the folder grid of the
    controller renders it without throwing: one card per folder, each with a
    string for its name and a number for its count of photos. *)
Theorem organized_folders_render (P : Platform) (ps : list Photo) (folders : list json) :
  organizePhotos P ps = Resolved folders ->
  exists cards,
    folder_grid folders = Resolved cards
    /\ length cards = length folders
    /\ Forall (fun card => exists s n, card = (Some (JStr s), Some n)) cards.
Proof.
  intros Hok.
  destruct (organizePhotos_resolved_inv P ps folders Hok) as (_ & _ & _ & _ & _ & Hshape).
  apply Array_map_all_resolved. apply Forall_forall. intros folder Hin.
  rewrite forallb_forall in Hshape.
  destruct (folder_card_well_shaped folder) as (s & n & Hcard).
  { apply Hshape. by apply list_elem_of_In. }
  exists (Some (JStr s), Some n). split; [exact Hcard | by exists s, n].
Qed.

Lemma organized_folders_render_witness :
  let P := Sample.scripted Sample.reply_loose (Some Sample.decoded_loose) in
  let folders := [JObj [("folderName", JStr "Trips");
                        ("photoIndices", JArr [JStr "zero"])]] in
  organizePhotos P Sample.two_photos = Resolved folders
  /\ exists cards,
       folder_grid folders = Resolved cards
       /\ length cards = length folders
       /\ Forall (fun card => exists s n, card = (Some (JStr s), Some n)) cards.
Proof.
  intros P folders. split; [reflexivity |].
  exact (organized_folders_render P Sample.two_photos folders eq_refl).
Defined.

(** ** State controller, further *)

(** X7. In every state the controller reaches, a call in flight means there
    are photos, no error and no result, so the client is never called with an
    empty list; and a stored result means there are photos and no call in
    flight. *)
Theorem call_in_flight_invariant (s : State * Browser) :
  reachable s ->
  (isLoading s.1 = true ->
     photos s.1 <> [] /\ error s.1 = None /\ organizedFolders s.1 = None)
  /\ (is_Some (organizedFolders s.1) -> photos s.1 <> [] /\ isLoading s.1 = false).
Proof.
  intros Hreach. destruct (reachable_phases s Hreach) as [Hres Hload]. split.
  - intros Hl. by destruct (Hload Hl) as (? & ? & ?).
  - intros Hsome. destruct (Hres Hsome) as [Hne _]. split; [exact Hne |].
    destruct (isLoading s.1) eqn:Hl; [| reflexivity].
    destruct (Hload eq_refl) as (_ & Hnone & _).
    rewrite Hnone in Hsome. by destruct Hsome.
Qed.

Lemma call_in_flight_invariant_witness :
  let s := step OrganizeClicked
             (step (FilesPicked (Some [Sample.beach])) (initial, URL.fresh)) in
  reachable s
  /\ isLoading s.1 = true
  /\ photos s.1 <> [] /\ error s.1 = None /\ organizedFolders s.1 = None.
Proof.
  intros s.
  assert (Hreach : reachable s).
  { apply (reach_step OrganizeClicked); [| reflexivity].
    apply (reach_step (FilesPicked _) (initial, URL.fresh) reach_mount).
    reflexivity. }
  split; [exact Hreach |]. split; [reflexivity |].
  exact (proj1 (call_in_flight_invariant s Hreach) eq_refl).
Defined.

Lemma onDrop_while_disabled (files : option (list File)) (b : Browser) :
  onDrop true files b = (None, b).
Proof. by destruct files. Qed.

Lemma ui_reachable_reachable (s : State * Browser) :
  ui_reachable s -> reachable s.
Proof.
  induction 1 as [| ev [st b] Hui IH Hen]; [constructor |].
  destruct (enabled ev st) eqn:Hperm; [by apply reach_step |].
  assert (Hsame : step ev (st, b) = (st, b)); [| by rewrite Hsame].
  destruct ev as [files | rendered files | | P |]; cbn [ui_enabled enabled fst] in *.
  - apply andb_prop in Hen as [_ Hen]. congruence.
  - apply negb_false_iff in Hperm. cbn [step fst snd]. rewrite Hperm.
    by rewrite onDrop_while_disabled.
  - apply andb_prop in Hen as [_ Hen]. congruence.
  - congruence.
  - apply orb_false_iff in Hperm as [Hl Hf]. rewrite Hl, Hf, andb_false_r in Hen.
    discriminate.
Qed.

(** X8. While a call is in flight, the rendered controls can only let it
    settle: picking files, Organize and Reset are disabled, Start Over is not
    on screen, and a drop changes nothing. *)
Theorem controls_inert_while_loading (s : State * Browser) (ev : Event) :
  ui_reachable s ->
  isLoading s.1 = true ->
  ui_enabled ev s.1 = true ->
  (exists P, ev = OrganizeSettled P) \/ step ev s = s.
Proof.
  intros Hui Hload Hen.
  destruct (reachable_phases s (ui_reachable_reachable s Hui)) as [_ Hphase].
  destruct (Hphase Hload) as (_ & Hnone & _).
  destruct s as [st b]. cbn [fst] in *.
  destruct ev as [files | rendered files | | P |]; cbn [ui_enabled] in Hen.
  - rewrite Hload, andb_false_r in Hen. discriminate.
  - right. cbn [step fst snd]. rewrite Hload. by rewrite onDrop_while_disabled.
  - rewrite Hload, andb_false_r in Hen. discriminate.
  - left. by exists P.
  - rewrite Hload, Hnone, andb_false_r in Hen. discriminate.
Qed.

Lemma controls_inert_while_loading_witness :
  let s := step OrganizeClicked
             (step (FilesPicked (Some [Sample.beach])) (initial, URL.fresh)) in
  let ev := FilesDropped [] (Some [Sample.city]) in
  ui_reachable s
  /\ isLoading s.1 = true
  /\ ui_enabled ev s.1 = true
  /\ ((exists P, ev = OrganizeSettled P) \/ step ev s = s).
Proof.
  intros s ev.
  assert (Hui : ui_reachable s).
  { apply (ui_step OrganizeClicked); [| reflexivity].
    apply (ui_step (FilesPicked _) (initial, URL.fresh) ui_mount).
    reflexivity. }
  split; [exact Hui |]. split; [reflexivity |]. split; [reflexivity |].
  exact (controls_inert_while_loading s ev Hui eq_refl eq_refl).
Defined.

(** X9. Through the rendered controls the error of the controller is only
    ever absent or the client's message: Organize is on screen only with
    photos, so the handler's own validation message is never stored. *)
Theorem ui_error_is_client_failure (s : State * Browser) :
  ui_reachable s ->
  error s.1 = None \/ error s.1 = Some failure_message.
Proof.
  induction 1 as [| ev [st b] Hui IH Hen]; [by left |].
  cbn [fst] in *.
  destruct ev as [[files |] | rendered [files |] | | P |]; cbn [step fst snd ui_enabled] in *.
  - rewrite intake_files, selectPhotos_unfold. by left.
  - exact IH.
  - unfold onDrop. destruct (negb (isLoading st) && (0 <? length files)).
    + rewrite intake_files, selectPhotos_unfold. by left.
    + exact IH.
  - exact IH.
  - apply andb_prop in Hen as [Hshown _]. apply andb_prop in Hshown as [_ Hlen].
    unfold organize_begin. destruct (photos st); [discriminate | by left].
  - destruct (organizePhotos P (photos st)) as [folders | e |] eqn:Hcall; cbn.
    + exact IH.
    + rewrite (organizePhotos_rejects_with P _ e Hcall). by right.
    + exact IH.
  - rewrite reset_unfold. by left.
Qed.

Lemma ui_error_is_client_failure_witness :
  let s := step (OrganizeSettled Fixtures.offline)
             (step OrganizeClicked
                (step (FilesPicked (Some [Sample.beach])) (initial, URL.fresh))) in
  ui_reachable s /\ error s.1 = Some failure_message.
Proof.
  intros s.
  assert (Hui : ui_reachable s).
  { apply (ui_step (OrganizeSettled _)); [| reflexivity].
    apply (ui_step OrganizeClicked); [| reflexivity].
    apply (ui_step (FilesPicked _) (initial, URL.fresh) ui_mount).
    reflexivity. }
  split; [exact Hui |].
  destruct (ui_error_is_client_failure s Hui) as [Hnone | Hfail];
    [discriminate Hnone | exact Hfail].
Defined.

(** ** Object URLs, further *)

Lemma to_photos_issued (files : list File) (b : Browser) :
  Forall (fun p => nextUrl b <= previewUrl p < nextUrl (to_photos files b).2)
         (to_photos files b).1.
Proof.
  destruct (to_photos_spec files b) as (Hfile & Hurl & Hnext & _).
  apply Forall_forall. intros p Hp.
  assert (Hin : previewUrl p ∈ map previewUrl (to_photos files b).1).
  { change (map previewUrl (to_photos files b).1)
      with (previewUrl <$> (to_photos files b).1). by apply list_elem_of_fmap_2. }
  rewrite Hurl in Hin. apply list_elem_of_In, in_seq in Hin. lia.
Qed.

Lemma revoke_each_nextUrl (ps : list Photo) (b : Browser) :
  nextUrl (revoke_each ps b) = nextUrl b.
Proof. by destruct (revoke_each_spec ps b) as (? & _). Qed.

Lemma intake_issued (rendered : list Photo) (files : list File)
    (st : State) (b : Browser) :
  Forall (fun p => previewUrl p
                   < nextUrl (intake rendered (handleFileChange (Some files) b) st).2)
         (photos (intake rendered (handleFileChange (Some files) b) st).1).
Proof.
  rewrite intake_files, selectPhotos_unfold. cbn [fst snd photos setError
    setOrganizedFolders setPhotos]. rewrite !revoke_each_nextUrl.
  eapply Forall_impl; [apply to_photos_issued |]. cbn. intros p Hp. lia.
Qed.

Lemma reachable_issued (s : State * Browser) :
  reachable s -> Forall (fun p => previewUrl p < nextUrl s.2) (photos s.1).
Proof.
  induction 1 as [| ev [st b] Hreach IH Hen]; [constructor |].
  destruct ev as [[files |] | rendered [files |] | | P |]; cbn [step fst snd] in *.
  - apply intake_issued.
  - exact IH.
  - unfold onDrop. destruct (negb (isLoading st) && (0 <? length files)); [| exact IH].
    apply intake_issued.
  - exact IH.
  - unfold organize_begin. by destruct (length (photos st) =? 0).
  - by destruct (organizePhotos P (photos st)).
  - rewrite reset_unfold. constructor.
Qed.

(** X10. In a state the controller has reached, its photos carry URLs the
    browser has issued. A selection made there, by a handler whose captured
    photos do too, leaves every photo on screen with a live URL that stands
    for its own file, no two alike: revoking the old set never takes a new
    URL away. *)
Theorem selection_leaves_photos_live
    (s : State * Browser) (rendered : list Photo) (files : list File) :
  reachable s ->
  Forall (fun p => previewUrl p < nextUrl s.2) rendered ->
  let s' := intake rendered (handleFileChange (Some files) s.2) s.1 in
  Forall (fun p => previewUrl p < nextUrl s.2) (photos s.1)
  /\ map file (photos s'.1) = List.filter is_image files
  /\ NoDup (map previewUrl (photos s'.1))
  /\ Forall (fun p => store s'.2 !! previewUrl p = Some (file p)) (photos s'.1).
Proof.
  intros Hreach Hrendered s'. subst s'.
  pose proof (reachable_issued s Hreach) as Hold.
  split; [exact Hold |].
  destruct s as [st b]. cbn [fst snd] in *.
  rewrite intake_files, selectPhotos_unfold.
  cbn [fst snd photos setError setOrganizedFolders setPhotos].
  destruct (to_photos_spec (List.filter is_image files) b)
    as (Hfile & Hurl & _ & _ & Hnew & _).
  pose proof (to_photos_issued (List.filter is_image files) b) as Hfresh.
  split; [exact Hfile |]. split.
  { rewrite Hurl. apply NoDup_ListNoDup, List.seq_NoDup. }
  apply Forall_lookup_2. intros i p Hi.
  assert (Hge : nextUrl b <= previewUrl p).
  { rewrite Forall_forall in Hfresh. apply Hfresh. by eapply list_elem_of_lookup_2. }
  assert (Hnotin : forall old : list Photo,
             Forall (fun q => previewUrl q < nextUrl b) old ->
             previewUrl p ∉ map previewUrl old).
  { intros old Hbound Hin.
    change (map previewUrl old) with (previewUrl <$> old) in Hin.
    apply list_elem_of_fmap in Hin as (q & Hq & Hqin).
    rewrite Forall_forall in Hbound. specialize (Hbound q Hqin). lia. }
  destruct (revoke_each_spec (photos st)
              (revoke_each rendered (to_photos (List.filter is_image files) b).2))
    as (_ & _ & Hs1).
  destruct (revoke_each_spec rendered (to_photos (List.filter is_image files) b).2)
    as (_ & _ & Hs2).
  rewrite Hs1, decide_False by (by apply Hnotin).
  rewrite Hs2, decide_False by (by apply Hnotin).
  assert (Hu : map previewUrl (to_photos (List.filter is_image files) b).1 !! i
               = Some (previewUrl p)).
  { change (map previewUrl ?l) with (previewUrl <$> l).
    by rewrite list_lookup_fmap, Hi. }
  rewrite Hurl in Hu. apply lookup_seq in Hu as [Hu Hlt].
  assert (Hf : List.filter is_image files !! i = Some (file p)).
  { rewrite <- Hfile. change (map file ?l) with (file <$> l).
    by rewrite list_lookup_fmap, Hi. }
  rewrite Hu. by apply Hnew.
Qed.

Lemma selection_leaves_photos_live_witness :
  let s := step (FilesPicked (Some [Sample.beach; Sample.notes])) (initial, URL.fresh) in
  let s' := intake (photos s.1) (handleFileChange (Some [Sample.notes; Sample.city]) s.2) s.1 in
  reachable s
  /\ Forall (fun p => previewUrl p < nextUrl s.2) (photos s.1)
  /\ photos s'.1 = [{| file := Sample.city; previewUrl := 1 |}]
  /\ Forall (fun p => store s'.2 !! previewUrl p = Some (file p)) (photos s'.1).
Proof.
  intros s s'.
  assert (Hreach : reachable s).
  { apply (reach_step (FilesPicked _) (initial, URL.fresh) reach_mount). reflexivity. }
  assert (Hbound : Forall (fun p => previewUrl p < nextUrl s.2) (photos s.1)).
  { repeat constructor. }
  pose proof (selection_leaves_photos_live s (photos s.1)
                [Sample.notes; Sample.city] Hreach Hbound) as (_ & _ & _ & Hlive).
  split; [exact Hreach |]. split; [exact Hbound |]. split; [reflexivity | exact Hlive].
Defined.

(** X11. Unmounting the application in any state it has reached leaves the
    blob URL store empty. *)
Theorem unmount_releases_everything (s : State * Browser) :
  reachable s -> store (unmount s) = ∅.
Proof.
  intros Hreach. pose proof (reachable_no_leak s Hreach) as Hleak.
  apply map_empty. intros u. unfold unmount, effect_cleanup.
  destruct (revoke_each_spec (photos s.1) s.2) as (_ & _ & Hs). rewrite Hs.
  destruct (decide (u ∈ map previewUrl (photos s.1))) as [Hin | Hnin]; [done |].
  destruct (store s.2 !! u) as [f |] eqn:Hu; [| done].
  exfalso. apply Hnin, Hleak. by exists f.
Qed.

Lemma unmount_releases_everything_witness :
  let s := step (FilesPicked (Some [Sample.beach; Sample.city])) (initial, URL.fresh) in
  reachable s
  /\ store s.2 !! 1 = Some Sample.city
  /\ store (unmount s) = ∅.
Proof.
  intros s.
  assert (Hreach : reachable s).
  { apply (reach_step (FilesPicked _) (initial, URL.fresh) reach_mount). reflexivity. }
  split; [exact Hreach |]. split; [reflexivity |].
  exact (unmount_releases_everything s Hreach).
Defined.

(** X12. An empty selection is not treated alike by the two inputs: picked,
    it reaches the handler and clears photos, result and error; dropped, it is
    ignored. A null list is ignored by both. *)
Theorem empty_selection_picked_or_dropped (s : State * Browser) (rendered : list Photo) :
  step (FilesPicked (Some [])) s = selectPhotos (photos s.1) [] s
  /\ photos (step (FilesPicked (Some [])) s).1 = []
  /\ organizedFolders (step (FilesPicked (Some [])) s).1 = None
  /\ error (step (FilesPicked (Some [])) s).1 = None
  /\ Forall (fun p => ¬ live (previewUrl p) (step (FilesPicked (Some [])) s).2)
            (photos s.1)
  /\ step (FilesDropped rendered (Some [])) s = s
  /\ step (FilesPicked None) s = s
  /\ step (FilesDropped rendered None) s = s.
Proof.
  destruct s as [st b].
  assert (Hpick : step (FilesPicked (Some [])) (st, b) = selectPhotos (photos st) [] (st, b))
    by reflexivity.
  split; [exact Hpick |]. rewrite Hpick, selectPhotos_unfold.
  repeat (split; [reflexivity |]).
  split; [apply replaced_not_live |].
  split; [| by split].
  cbn [step fst snd]. unfold onDrop. by rewrite andb_false_r.
Qed.

(** X13. Intake gives out one URL per image and none for any other file, and
    touches no entry the store already had. *)
Theorem intake_allocates_for_images_only (files : list File) (b : Browser) :
  nextUrl (handleFileChange (Some files) b).2
    = nextUrl b + length (List.filter is_image files)
  /\ forall u, u < nextUrl b \/ nextUrl (handleFileChange (Some files) b).2 <= u ->
               store (handleFileChange (Some files) b).2 !! u = store b !! u.
Proof.
  unfold handleFileChange.
  destruct (to_photos_spec (List.filter is_image files) b)
    as (_ & _ & Hnext & _ & _ & Hold).
  destruct (to_photos (List.filter is_image files) b) as [ps b'].
  cbn [fst snd] in *. split; [exact Hnext |].
  intros u Hu. apply Hold. lia.
Qed.

(** ** Folder export, further *)

Lemma Array_at_in_range {A} (l : list A) (index : Z) :
  is_Some (Array_at l index) <-> (0 <= index < Z.of_nat (length l))%Z.
Proof.
  unfold Array_at. destruct (0 <=? index)%Z eqn:Hsign.
  - rewrite lookup_lt_is_Some. lia.
  - split; [by intros [? ?] | lia].
Qed.

Lemma members_of_defined {A} (l : list (option A)) :
  None ∉ l -> exists members, l = map Some members.
Proof.
  induction l as [| [x |] rest IH]; intros Hno.
  - by exists [].
  - destruct IH as [members ->].
    { intros Hin. apply Hno. by apply list_elem_of_further. }
    by exists (x :: members).
  - exfalso. apply Hno. apply list_elem_of_here.
Qed.

Lemma photosInFolder_members (folder : OrganizedFolder) (allPhotos : list Photo) :
  Forall (fun index => (0 <= index < Z.of_nat (length allPhotos))%Z)
         (photoIndices folder) ->
  exists members,
    photosInFolder folder allPhotos = map Some members
    /\ length members = length (photoIndices folder).
Proof.
  intros Hrange.
  destruct (members_of_defined (photosInFolder folder allPhotos)) as [members Hm].
  - unfold photosInFolder.
    change (map (Array_at allPhotos) (photoIndices folder))
      with (Array_at allPhotos <$> photoIndices folder).
    intros (index & Hnone & Hin)%list_elem_of_fmap.
    rewrite Forall_forall in Hrange. specialize (Hrange index Hin).
    apply Array_at_in_range in Hrange.
    rewrite <- Hnone in Hrange. by destruct Hrange.
  - exists members. split; [exact Hm |].
    apply (f_equal length) in Hm. unfold photosInFolder in Hm.
    by rewrite !length_map in Hm.
Qed.

Lemma photosInFolder_undefined (folder : OrganizedFolder) (allPhotos : list Photo) :
  ¬ Forall (fun index => (0 <= index < Z.of_nat (length allPhotos))%Z)
           (photoIndices folder) ->
  None ∈ photosInFolder folder allPhotos.
Proof.
  intros Hnot. apply not_Forall_Exists in Hnot; [| intros index; apply _].
  apply Exists_exists in Hnot as (index & Hin & Hout).
  unfold photosInFolder.
  change (map (Array_at allPhotos) (photoIndices folder))
    with (Array_at allPhotos <$> photoIndices folder).
  apply list_elem_of_fmap. exists index. split; [| exact Hin].
  destruct (Array_at allPhotos index) as [p |] eqn:Hat; [| reflexivity].
  exfalso. apply Hout, Array_at_in_range. by rewrite Hat.
Qed.

Lemma Array_map_photoPromise_members (R : Runtime) (members : list Photo) :
  Array_map (photoPromise R) (map Some members)
  = Resolved (map (fun p =>
                     res ← fetch R (previewUrl p);
                     if negb (ok res)
                     then Rejected (Error ("Failed to fetch " +:+ name (file p)))
                     else Resolved (name (file p), blob res)) members).
Proof.
  induction members as [| p rest IH]; [reflexivity |].
  cbn [map Array_map photoPromise]. cbn [mbind Promise_bind].
  rewrite IH. reflexivity.
Qed.

(** X15. One failed retrieval fails the whole export: when the fetch for a
    member rejects, or answers with a status that is not ok, the click ends in
    the [catch] branch and nothing is downloaded, whatever the other members
    do. *)
Theorem handleDownload_fails_on_failed_fetch
    (R : Runtime) (folder : OrganizedFolder) (allPhotos : list Photo)
    (index : Z) (p : Photo) :
  index ∈ photoIndices folder ->
  Array_at allPhotos index = Some p ->
  (exists e, fetch R (previewUrl p) = Rejected e)
  \/ (exists body, fetch R (previewUrl p) = Resolved {| ok := false; blob := body |}) ->
  exists e', handleDownload R false folder allPhotos = (false, Failed e').
Proof.
  intros Hin Hat Hfetch. unfold handleDownload.
  destruct (decide (Forall (fun index => (0 <= index < Z.of_nat (length allPhotos))%Z)
                           (photoIndices folder))) as [Hall | Hnot].
  2: { rewrite (Array_map_photoPromise_undefined R)
         by (by apply photosInFolder_undefined).
       by eexists. }
  - destruct (photosInFolder_members folder allPhotos Hall) as (members & Hm & _).
    rewrite Hm, Array_map_photoPromise_members. cbn [mbind Promise_bind].
    assert (Hp : p ∈ members).
    { assert (Hsome : Some p ∈ photosInFolder folder allPhotos).
      { unfold photosInFolder.
        change (map (Array_at allPhotos) (photoIndices folder))
          with (Array_at allPhotos <$> photoIndices folder).
        apply list_elem_of_fmap. by exists index. }
      rewrite Hm in Hsome. change (map Some members) with (Some <$> members) in Hsome.
      apply list_elem_of_fmap in Hsome as (q & [= ->] & Hq). exact Hq. }
    destruct (Promise_all_Rejected
                (map (fun p =>
                        res ← fetch R (previewUrl p);
                        if negb (ok res)
                        then Rejected (Error ("Failed to fetch " +:+ name (file p)))
                        else Resolved (name (file p), blob res)) members)
                (match fetch R (previewUrl p) with
                 | Rejected e => e
                 | _ => Error ("Failed to fetch " +:+ name (file p))
                 end)) as [e' He'].
    { change (map ?f members) with (f <$> members).
      apply list_elem_of_fmap. exists p. split; [| exact Hp].
      destruct Hfetch as [[e ->] | [body ->]]; reflexivity. }
    rewrite He'. by exists e'.
Qed.

Lemma handleDownload_fails_on_failed_fetch_witness :
  let R := Fixtures.serving (fun u => negb (u =? 1)%nat) in
  1%Z ∈ photoIndices Fixtures.trips
  /\ Array_at Sample.two_photos 1 = Some {| file := Sample.city; previewUrl := 1 |}
  /\ fetch R 1 = Resolved {| ok := false; blob := "bytes" |}
  /\ exists e', handleDownload R false Fixtures.trips Sample.two_photos
                = (false, Failed e').
Proof.
  intros R.
  assert (Hin : 1%Z ∈ photoIndices Fixtures.trips) by (by repeat constructor).
  split; [exact Hin |]. split; [reflexivity |]. split; [reflexivity |].
  apply (handleDownload_fails_on_failed_fetch R Fixtures.trips Sample.two_photos 1
           {| file := Sample.city; previewUrl := 1 |} Hin eq_refl).
  right. by exists "bytes".
Defined.

(** X16. When every index is in range, every member's fetch is answered ok
    and the archive is generated, the click downloads one file, named after
    the sanitized folder name, made from the members' bytes under their file
    names, added in the folder's order. *)
Theorem handleDownload_downloads_members
    (R : Runtime) (folder : OrganizedFolder) (allPhotos members : list Photo)
    (bytes : Photo -> string) (archive : string) :
  photosInFolder folder allPhotos = map Some members ->
  (forall p, p ∈ members ->
     fetch R (previewUrl p) = Resolved {| ok := true; blob := bytes p |}) ->
  generateAsync R (zip_files (map (fun p => (name (file p), bytes p)) members))
    = Resolved archive ->
  handleDownload R false folder allPhotos
  = (false, Downloaded (safeFolderName folder +:+ ".zip") archive).
Proof.
  intros Hm Hfetch Hzip. unfold handleDownload.
  rewrite Hm, Array_map_photoPromise_members. cbn [mbind Promise_bind].
  assert (Hall :
    map (fun p =>
           res ← fetch R (previewUrl p);
           if negb (ok res)
           then Rejected (Error ("Failed to fetch " +:+ name (file p)))
           else Resolved (name (file p), blob res)) members
    = map Resolved (map (fun p => (name (file p), bytes p)) members)).
  { rewrite map_map. apply map_ext_in. intros p Hp.
    rewrite (Hfetch p) by (by apply list_elem_of_In). reflexivity. }
  rewrite Hall, Promise_all_Resolved. cbn [mbind Promise_bind].
  rewrite Hzip. reflexivity.
Qed.

Lemma handleDownload_downloads_members_witness :
  let R := Fixtures.serving (fun _ => true) in
  let members := [{| file := Sample.city; previewUrl := 1 |};
                  {| file := Sample.beach; previewUrl := 0 |}] in
  photosInFolder Fixtures.trips Sample.two_photos = map Some members
  /\ handleDownload R false Fixtures.trips Sample.two_photos
     = (false, Downloaded "trips.zip" "archive").
Proof.
  intros R members. split; [reflexivity |].
  apply (handleDownload_downloads_members R Fixtures.trips Sample.two_photos members
           (fun _ => "bytes") "archive"); reflexivity.
Defined.

(** X17. A click only ever downloads something when the modal was not already
    zipping and every index of the folder lies within the photo list; the
    file is then named after the sanitized folder name and the modal is no
    longer zipping. *)
Theorem handleDownload_downloads_only_in_range
    (R : Runtime) (isZipping after : bool) (folder : OrganizedFolder)
    (allPhotos : list Photo) (filename archive : string) :
  handleDownload R isZipping folder allPhotos = (after, Downloaded filename archive) ->
  isZipping = false
  /\ after = false
  /\ Forall (fun index => (0 <= index < Z.of_nat (length allPhotos))%Z)
            (photoIndices folder)
  /\ filename = safeFolderName folder +:+ ".zip".
Proof.
  unfold handleDownload. destruct isZipping; [discriminate |]. intros H.
  split; [reflexivity |].
  destruct (decide (Forall (fun index => (0 <= index < Z.of_nat (length allPhotos))%Z)
                           (photoIndices folder))) as [Hall | Hnot].
  2: { rewrite (Array_map_photoPromise_undefined R) in H
         by (by apply photosInFolder_undefined).
       discriminate. }
  destruct (Array_map (photoPromise R) (photosInFolder folder allPhotos))
    as [promises | e |]; cbn [mbind Promise_bind] in H; try discriminate.
  destruct (Promise_all promises) as [photoData | e |];
    cbn [mbind Promise_bind] in H; try discriminate.
  destruct (generateAsync R (zip_files photoData)) as [content | e |];
    cbn [mbind Promise_bind] in H; try discriminate.
  by injection H as <- <- <-.
Qed.

Lemma handleDownload_downloads_only_in_range_witness :
  let R := Fixtures.serving (fun _ => true) in
  handleDownload R false Fixtures.trips Sample.two_photos
    = (false, Downloaded "trips.zip" "archive")
  /\ Forall (fun index => (0 <= index < Z.of_nat (length Sample.two_photos))%Z)
            (photoIndices Fixtures.trips).
Proof.
  intros R. split; [reflexivity |].
  exact (proj1 (proj2 (proj2 (handleDownload_downloads_only_in_range R false false
           Fixtures.trips Sample.two_photos "trips.zip" "archive" eq_refl)))).
Defined.

Lemma zip_fold_is_Some (data : list (string * string)) (zip : gmap string string)
    (n : string) :
  is_Some (foldl (fun zip data => <[data.1 := data.2]> zip) zip data !! n)
  <-> is_Some (zip !! n) \/ n ∈ map fst data.
Proof.
  revert zip. induction data as [| [k v] rest IH]; intros zip; cbn [foldl map fst snd].
  - split; [by left | intros [? | Hin]; [done | by apply not_elem_of_nil in Hin]].
  - rewrite IH, lookup_insert_is_Some', elem_of_cons. intuition congruence.
Qed.

Lemma zip_fold_absent (data : list (string * string)) (zip : gmap string string)
    (n : string) :
  n ∉ map fst data ->
  foldl (fun zip data => <[data.1 := data.2]> zip) zip data !! n = zip !! n.
Proof.
  revert zip. induction data as [| [k v] rest IH]; intros zip Hnin; [reflexivity |].
  cbn [foldl map fst snd] in *. apply not_elem_of_cons in Hnin as [Hne Hrest].
  rewrite (IH _ Hrest). by apply lookup_insert_ne.
Qed.

(** X18. The archive has one entry per distinct name among the files added,
    and under a name shared by several of them it holds the bytes of the one
    added last. *)
Theorem zip_files_last_entry_wins (data : list (string * string)) :
  (forall n, is_Some (zip_files data !! n) <-> n ∈ map fst data)
  /\ (forall before after n bytes,
        data = before ++ (n, bytes) :: after ->
        n ∉ map fst after ->
        zip_files data !! n = Some bytes).
Proof.
  split.
  - intros n. unfold zip_files. rewrite zip_fold_is_Some, lookup_empty.
    split; [intros [[? ?] | ?]; done | by right].
  - intros before after n bytes -> Hlast. unfold zip_files.
    rewrite foldl_app. cbn [foldl fst snd].
    rewrite (zip_fold_absent after _ n Hlast). apply lookup_insert_eq.
Qed.

Lemma sanitized_char_is_safe (c : ascii) :
  is_safe_char (to_lower (if is_alnum c then c else "_"%char)) = true.
Proof. destruct c as [[] [] [] [] [] [] [] []]; reflexivity. Qed.

Lemma safe_char_is_kept (c : ascii) :
  is_safe_char c = true -> to_lower (if is_alnum c then c else "_"%char) = c.
Proof.
  destruct c as [[] [] [] [] [] [] [] []]; intros H;
    first [discriminate H | reflexivity].
Qed.

(** X19. The download name has as many characters as the folder name, every
    one a lower-case letter, a digit or an underscore; a folder name already
    of that kind is kept as it is, so sanitizing twice changes nothing
    more. *)
Theorem safeFolderName_is_safe (folder : OrganizedFolder) :
  String.length (safeFolderName folder) = String.length (folderName folder)
  /\ forall_chars is_safe_char (safeFolderName folder) = true
  /\ (forall_chars is_safe_char (folderName folder) = true ->
      safeFolderName folder = folderName folder)
  /\ safeFolderName {| folderName := safeFolderName folder;
                       description := description folder;
                       photoIndices := photoIndices folder |}
     = safeFolderName folder.
Proof.
  assert (Hlen : forall s,
    String.length (map_chars to_lower
      (map_chars (fun c => if is_alnum c then c else "_"%char) s)) = String.length s).
  { induction s as [| c rest IH]; [reflexivity |]. cbn. by rewrite IH. }
  assert (Hsafe : forall s,
    forall_chars is_safe_char (map_chars to_lower
      (map_chars (fun c => if is_alnum c then c else "_"%char) s)) = true).
  { induction s as [| c rest IH]; [reflexivity |].
    cbn [map_chars forall_chars]. by rewrite sanitized_char_is_safe, IH. }
  assert (Hkeep : forall s, forall_chars is_safe_char s = true ->
    map_chars to_lower (map_chars (fun c => if is_alnum c then c else "_"%char) s) = s).
  { induction s as [| c rest IH]; [reflexivity |].
    cbn [map_chars forall_chars]. intros [Hc Hrest]%andb_prop.
    by rewrite (safe_char_is_kept c Hc), (IH Hrest). }
  unfold safeFolderName. cbn [folderName].
  split; [apply Hlen |]. split; [apply Hsafe |]. split; [apply Hkeep |].
  apply Hkeep, Hsafe.
Qed.

(** ** What the controller holds *)

Lemma reachable_result_well_shaped (s : State * Browser) (folders : list json) :
  reachable s ->
  organizedFolders s.1 = Some folders ->
  forallb well_shaped folders = true.
Proof.
  intros Hreach. revert folders.
  induction Hreach as [| ev [st b] Hreach IH Hen]; intros folders; [discriminate |].
  destruct ev as [[files |] | rendered [files |] | | P |]; cbn [step fst snd] in *.
  - rewrite intake_files, selectPhotos_unfold. discriminate.
  - apply IH.
  - unfold onDrop. destruct (negb (isLoading st) && (0 <? length files)); [| apply IH].
    rewrite intake_files, selectPhotos_unfold. discriminate.
  - apply IH.
  - unfold organize_begin. destruct (length (photos st) =? 0); [apply IH | discriminate].
  - destruct (organizePhotos P (photos st)) as [fs | e |] eqn:Hcall; cbn; try apply IH.
    intros [= <-].
    by destruct (organizePhotos_resolved_inv P _ _ Hcall) as (_ & _ & _ & _ & _ & ?).
  - rewrite reset_unfold. discriminate.
Qed.

(** X20. In every state the controller reaches, a stored result has passed
    the client's check, and the folder grid renders it without throwing, one
    card per folder. *)
Theorem stored_result_renders (s : State * Browser) (folders : list json) :
  reachable s ->
  organizedFolders s.1 = Some folders ->
  forallb well_shaped folders = true
  /\ exists cards,
       folder_grid folders = Resolved cards /\ length cards = length folders.
Proof.
  intros Hreach Hstored.
  pose proof (reachable_result_well_shaped s folders Hreach Hstored) as Hshape.
  split; [exact Hshape |].
  destruct (Array_map_all_resolved folder_card (fun _ => True) folders)
    as (cards & Hcards & Hlen & _).
  { apply Forall_forall. intros folder Hin. rewrite forallb_forall in Hshape.
    destruct (folder_card_well_shaped folder) as (name & n & Hcard).
    { apply Hshape. by apply list_elem_of_In. }
    by eexists. }
  by exists cards.
Qed.

Lemma stored_result_renders_witness :
  let P := Sample.scripted Sample.reply_loose (Some Sample.decoded_loose) in
  let s := step (OrganizeSettled P)
             (step OrganizeClicked
                (step (FilesPicked (Some [Sample.beach])) (initial, URL.fresh))) in
  let folders := [JObj [("folderName", JStr "Trips");
                        ("photoIndices", JArr [JStr "zero"])]] in
  reachable s
  /\ organizedFolders s.1 = Some folders
  /\ exists cards,
       folder_grid folders = Resolved cards /\ length cards = length folders.
Proof.
  intros P s folders.
  assert (Hreach : reachable s).
  { apply (reach_step (OrganizeSettled P)); [| reflexivity].
    apply (reach_step OrganizeClicked); [| reflexivity].
    apply (reach_step (FilesPicked _) (initial, URL.fresh) reach_mount).
    reflexivity. }
  split; [exact Hreach |]. split; [reflexivity |].
  exact (proj2 (stored_result_renders s folders Hreach eq_refl)).
Defined.

Lemma intake_images (rendered : list Photo) (files : list File)
    (st : State) (b : Browser) :
  Forall (fun p => is_image (file p) = true)
         (photos (intake rendered (handleFileChange (Some files) b) st).1)
  /\ NoDup (map previewUrl
              (photos (intake rendered (handleFileChange (Some files) b) st).1)).
Proof.
  rewrite intake_files, selectPhotos_unfold.
  cbn [fst photos setError setOrganizedFolders setPhotos].
  destruct (to_photos_spec (List.filter is_image files) b) as (Hfile & Hurl & _).
  split.
  - apply Forall_forall. intros p Hp.
    assert (Hin : file p ∈ List.filter is_image files).
    { rewrite <- Hfile. change (map file ?l) with (file <$> l).
      by apply list_elem_of_fmap_2. }
    apply list_elem_of_In, filter_In in Hin. tauto.
  - rewrite Hurl. apply NoDup_ListNoDup, List.seq_NoDup.
Qed.

(** X21. In every state the controller reaches, every photo it holds is an
    image file, and no two photos share an object URL: nothing but images is
    ever shown or handed to the client. *)
Theorem held_photos_are_distinct_images (s : State * Browser) :
  reachable s ->
  Forall (fun p => is_image (file p) = true) (photos s.1)
  /\ NoDup (map previewUrl (photos s.1)).
Proof.
  induction 1 as [| ev [st b] Hreach IH Hen].
  { split; constructor. }
  destruct ev as [[files |] | rendered [files |] | | P |]; cbn [step fst snd] in *.
  - apply intake_images.
  - exact IH.
  - unfold onDrop. destruct (negb (isLoading st) && (0 <? length files)); [| exact IH].
    apply intake_images.
  - exact IH.
  - unfold organize_begin. by destruct (length (photos st) =? 0).
  - by destruct (organizePhotos P (photos st)).
  - rewrite reset_unfold. split; constructor.
Qed.

Lemma held_photos_are_distinct_images_witness :
  let s := step (FilesPicked (Some [Sample.beach; Sample.notes; Sample.city]))
                (initial, URL.fresh) in
  reachable s
  /\ map file (photos s.1) = [Sample.beach; Sample.city]
  /\ Forall (fun p => is_image (file p) = true) (photos s.1)
  /\ NoDup (map previewUrl (photos s.1)).
Proof.
  intros s.
  assert (Hreach : reachable s).
  { apply (reach_step (FilesPicked _) (initial, URL.fresh) reach_mount). reflexivity. }
  split; [exact Hreach |]. split; [reflexivity |].
  exact (held_photos_are_distinct_images s Hreach).
Defined.

(** ** The folder modal *)

Lemma Array_map_resolved_elem {A B} (f : A -> Promise B) (l : list A) (ys : list B)
    (x : A) :
  Array_map f l = Resolved ys -> x ∈ l -> exists y, y ∈ ys /\ f x = Resolved y.
Proof.
  revert ys. induction l as [| a rest IH]; intros ys Hmap Hin.
  - by apply not_elem_of_nil in Hin.
  - cbn in Hmap. destruct (f a) as [b | e |] eqn:Hfa; try discriminate.
    cbn in Hmap. destruct (Array_map f rest) as [bs | e |] eqn:Hrest; try discriminate.
    cbn in Hmap. injection Hmap as <-.
    apply elem_of_cons in Hin as [-> | Hin].
    + exists b. split; [apply list_elem_of_here | exact Hfa].
    + destruct (IH bs eq_refl Hin) as (y & Hy & Hfx).
      exists y. split; [by apply list_elem_of_further | exact Hfx].
Qed.

Lemma element_number_key (on_prototype : string -> bool) (allPhotos : list Photo)
    (index : Z) :
  element on_prototype allPhotos (number_key (inject_Z index))
  = as_member (Array_at allPhotos index).
Proof.
  unfold number_key, is_integer, Array_at. cbn [inject_Z Qnum Qden].
  rewrite Z.mod_1_r, Z.div_1_r. cbn [Z.eqb andb].
  destruct (0 <=? index)%Z eqn:Hsign; [| reflexivity].
  apply Z.leb_le in Hsign. cbn [element]. unfold at_index.
  rewrite Z_N_nat.
  destruct (Z.to_N index <? N.of_nat (length allPhotos))%N eqn:Hlt; [reflexivity |].
  apply N.ltb_ge in Hlt.
  rewrite (proj2 (lookup_ge_None allPhotos (Z.to_nat index))) by lia.
  reflexivity.
Qed.

Lemma members_of_typed_folder (on_prototype : string -> bool)
    (folder : OrganizedFolder) (allPhotos : list Photo) :
  Array_map (fun index => k ← to_key index; Resolved (element on_prototype allPhotos k))
            (map (fun index => JNum (inject_Z index)) (photoIndices folder))
  = Resolved (map as_member (photosInFolder folder allPhotos)).
Proof.
  unfold photosInFolder.
  induction (photoIndices folder) as [| index rest IH]; [reflexivity |].
  cbn [map Array_map]. rewrite IH. cbn [to_key mbind Promise_bind].
  by rewrite element_number_key.
Qed.

Lemma images_of_members (name : string) (members : list Photo) :
  Array_map (fun photo =>
               src ← match photo with
                     | MUndefined =>
                         Rejected (TypeError "Cannot read properties of undefined")
                     | MPhoto p => Resolved (Some (previewUrl p))
                     | MOther => Resolved None
                     end;
               _ ← template_text (Some (JStr name));
               Resolved src)
            (map as_member (map Some members))
  = Resolved (map (fun p => Some (previewUrl p)) members).
Proof.
  induction members as [| p rest IH]; [reflexivity |].
  cbn [map as_member Array_map]. rewrite IH. reflexivity.
Qed.

Lemma images_of_undefined (name : string) (members : list (option Photo)) :
  None ∈ members ->
  Array_map (fun photo =>
               src ← match photo with
                     | MUndefined =>
                         Rejected (TypeError "Cannot read properties of undefined")
                     | MPhoto p => Resolved (Some (previewUrl p))
                     | MOther => Resolved None
                     end;
               _ ← template_text (Some (JStr name));
               Resolved src)
            (map as_member members)
  = Rejected (TypeError "Cannot read properties of undefined").
Proof.
  induction members as [| [p |] rest IH]; intros Hin.
  - by apply not_elem_of_nil in Hin.
  - apply elem_of_cons in Hin as [? | Hin]; [discriminate |].
    cbn [map as_member Array_map]. rewrite (IH Hin). reflexivity.
  - reflexivity.
Qed.

Lemma render_typed_members (on_prototype : string -> bool) (isZipping : bool)
    (folder : OrganizedFolder) (allPhotos members : list Photo) :
  photosInFolder folder allPhotos = map Some members ->
  render on_prototype isZipping (folder_value folder) allPhotos
  = Resolved {| heading := Some (JStr (folderName folder));
                paragraph := Some (JStr (description folder));
                download_disabled := isZipping;
                download_label := if isZipping then "Zipping..." else "Download Folder";
                images := map (fun p => Some (previewUrl p)) members |}.
Proof.
  intros Hm. unfold render, folder_value.
  cbn [get own_property String.eqb Ascii.eqb Bool.eqb mbind Promise_bind].
  rewrite members_of_typed_folder, Hm. cbn [mbind Promise_bind].
  rewrite images_of_members. reflexivity.
Qed.

Lemma render_typed_undefined (on_prototype : string -> bool) (isZipping : bool)
    (folder : OrganizedFolder) (allPhotos : list Photo) :
  None ∈ photosInFolder folder allPhotos ->
  render on_prototype isZipping (folder_value folder) allPhotos
  = Rejected (TypeError "Cannot read properties of undefined").
Proof.
  intros Hnone. unfold render, folder_value.
  cbn [get own_property String.eqb Ascii.eqb Bool.eqb mbind Promise_bind].
  rewrite members_of_typed_folder. cbn [mbind Promise_bind].
  by rewrite (images_of_undefined _ _ Hnone).
Qed.

(** C3, as the code has it. For a folder of the declared type with an index at
    or beyond the number of photos, no archive is made and no member is left
    out, but nothing fails gracefully: the modal that holds the Download
    button throws a TypeError while it renders, on the undefined member; and
    the handler, run in a modal that is not already zipping, throws the same
    error inside its [try] and ends in the [catch] branch, which writes it to
    the console and returns, whatever the network does. *)
Theorem out_of_range_index_breaks_modal_and_export
    (on_prototype : string -> bool) (R : Runtime) (isZipping : bool)
    (folder : OrganizedFolder) (allPhotos : list Photo) (index : Z) :
  index ∈ photoIndices folder ->
  (Z.of_nat (length allPhotos) <= index)%Z ->
  render on_prototype isZipping (folder_value folder) allPhotos
    = Rejected (TypeError "Cannot read properties of undefined")
  /\ handleDownload R false folder allPhotos
     = (false, Failed (TypeError "Cannot read properties of undefined")).
Proof.
  intros Hin Hge. split.
  - apply render_typed_undefined. by apply photosInFolder_out_of_range with index.
  - by apply handleDownload_fails_on_index_out_of_range with index.
Qed.

Lemma out_of_range_index_breaks_modal_and_export_witness :
  let folder := {| folderName := "Trips"; description := "Two trips.";
                   photoIndices := [0; 2]%Z |} in
  let R := Fixtures.serving (fun _ => true) in
  2%Z ∈ photoIndices folder
  /\ (Z.of_nat (length Sample.two_photos) <= 2)%Z
  /\ render Fixtures.some_inherited true (folder_value folder) Sample.two_photos
     = Rejected (TypeError "Cannot read properties of undefined")
  /\ handleDownload R false folder Sample.two_photos
     = (false, Failed (TypeError "Cannot read properties of undefined")).
Proof.
  intros folder R.
  assert (Hin : 2%Z ∈ photoIndices folder) by (by repeat constructor).
  assert (Hge : (Z.of_nat (length Sample.two_photos) <= 2)%Z) by (cbn; lia).
  split; [exact Hin |]. split; [exact Hge |].
  exact (out_of_range_index_breaks_modal_and_export Fixtures.some_inherited R true
           folder Sample.two_photos 2 Hin Hge).
Defined.

(** C3 as stated fails: with two photos and the indices 0 and 2, the modal
    throws while rendering instead of letting an export fail, and the handler
    by itself would end in its [catch] branch, where the error is logged and
    nothing is raised or shown. *)
Lemma modal_crashes_on_index_out_of_range :
  let folder := {| folderName := "Trips"; description := "Two trips.";
                   photoIndices := [0; 2]%Z |} in
  folder_value folder
    = JObj [("folderName", JStr "Trips"); ("description", JStr "Two trips.");
            ("photoIndices", JArr [JNum 0; JNum 2])]
  /\ render Fixtures.some_inherited false (folder_value folder) Sample.two_photos
     = Rejected (TypeError "Cannot read properties of undefined")
  /\ handleDownload (Fixtures.serving (fun _ => true)) false folder Sample.two_photos
     = (false, Failed (TypeError "Cannot read properties of undefined")).
Proof. repeat split. Qed.

(** X14. For a folder whose fields have their declared types (a string name,
    a string description, integer indices), the modal renders exactly when
    every index lies within the photo list: then with the name, the
    description and one image per index, in the folder's order; with any
    index outside, a negative one too, its render throws a TypeError. *)
Theorem modal_renders_typed_folder_iff_in_range
    (on_prototype : string -> bool) (isZipping : bool)
    (folder : OrganizedFolder) (allPhotos : list Photo) :
  (Forall (fun index => (0 <= index < Z.of_nat (length allPhotos))%Z)
          (photoIndices folder) ->
   exists members,
     photosInFolder folder allPhotos = map Some members
     /\ render on_prototype isZipping (folder_value folder) allPhotos
        = Resolved {| heading := Some (JStr (folderName folder));
                      paragraph := Some (JStr (description folder));
                      download_disabled := isZipping;
                      download_label :=
                        if isZipping then "Zipping..." else "Download Folder";
                      images := map (fun p => Some (previewUrl p)) members |})
  /\ (¬ Forall (fun index => (0 <= index < Z.of_nat (length allPhotos))%Z)
               (photoIndices folder) ->
      render on_prototype isZipping (folder_value folder) allPhotos
      = Rejected (TypeError "Cannot read properties of undefined")).
Proof.
  split.
  - intros Hrange.
    destruct (photosInFolder_members folder allPhotos Hrange) as (members & Hm & _).
    exists members. split; [exact Hm |]. by apply render_typed_members.
  - intros Hnot. apply render_typed_undefined. by apply photosInFolder_undefined.
Qed.

(** X22. The client's check does not make a stored folder safe to open: a
    folder whose description is an object, or whose indices hold an integer
    that is negative or at or beyond the number of photos, never gives a
    rendered modal; the render throws. *)
Theorem modal_never_renders_unsafe_folder
    (on_prototype : string -> bool) (isZipping : bool)
    (props : list (string * json)) (allPhotos : list Photo) :
  (exists fields, own_property "description" props = Some (JObj fields))
  \/ (exists items index,
        own_property "photoIndices" props = Some (JArr items)
        /\ JNum (inject_Z index) ∈ items
        /\ ¬ (0 <= index < Z.of_nat (length allPhotos))%Z) ->
  forall view, render on_prototype isZipping (JObj props) allPhotos <> Resolved view.
Proof.
  intros Hcause view Hres. unfold render in Hres.
  cbn [get mbind Promise_bind] in Hres.
  destruct (own_property "photoIndices" props) as [[| | | | items |] |] eqn:Hidx;
    try discriminate.
  cbn [mbind Promise_bind] in Hres.
  destruct (Array_map _ items) as [members | e |] eqn:Hmembers; try discriminate.
  cbn [mbind Promise_bind] in Hres.
  destruct (Array_map _ members) as [srcs | e |] eqn:Hsrcs; try discriminate.
  cbn [mbind Promise_bind] in Hres.
  destruct Hcause as [[fields Hd] | (items' & index & Hi & Hin & Hout)].
  - rewrite Hd in Hres. cbn [from_option valid_child] in Hres.
    rewrite andb_false_r in Hres. discriminate.
  - injection Hi as <-.
    destruct (Array_map_resolved_elem _ _ _ _ Hmembers Hin) as (m & Hm & Hkey).
    cbn [to_key mbind Promise_bind] in Hkey. injection Hkey as <-.
    rewrite element_number_key in Hm.
    assert (Hnone : Array_at allPhotos index = None).
    { destruct (Array_at allPhotos index) as [p |] eqn:Hat; [| reflexivity].
      exfalso. apply Hout, Array_at_in_range. by rewrite Hat. }
    rewrite Hnone in Hm. cbn [as_member] in Hm.
    destruct (Array_map_resolved_elem _ _ _ _ Hsrcs Hm) as (src & _ & Himg).
    discriminate.
Qed.

Lemma modal_never_renders_unsafe_folder_witness :
  let props := [("folderName", JStr "Trips"); ("description", JObj []);
                ("photoIndices", JArr [JNum 0])] in
  own_property "description" props = Some (JObj [])
  /\ well_shaped (JObj props) = true
  /\ render Fixtures.some_inherited false (JObj props) Sample.two_photos
     = Rejected (Error "Objects are not valid as a React child")
  /\ forall view,
       render Fixtures.some_inherited false (JObj props) Sample.two_photos
       <> Resolved view.
Proof.
  intros props. split; [reflexivity |]. split; [reflexivity |]. split; [reflexivity |].
  apply (modal_never_renders_unsafe_folder Fixtures.some_inherited false props
           Sample.two_photos).
  left. by exists [].
Defined.
